(** * Minesweeper: a shallow embedding of [main.py] and its rule engine.

    The development follows the Python source class by class.  Python
    integers are [Z]; [time.time()] values are IEEE binary64 numbers
    ([float], the kernel's primitive floats, so that [current_time -
    self.last_reveal_time < 1.0] is the very comparison the interpreter
    performs); nested lists indexed [m[y][x]] are [list (list A)] read
    with stdpp's list lookup and written with its insert.

    Three things the source takes from its environment are made
    explicit arguments:
    - the wall clock: a [Clock] gives the value of the n-th call of
      [time.time()], and the game state counts the calls made so far;
    - [random.sample]: the random draws are an argument of [place_mines];
    - the interpreter's call stack: [reveal_cell] is recursive in the
      source, and the model takes the number of frames that are left. *)

From Stdlib Require Import ZArith Lia Bool Floats.
From stdpp Require Import base numbers option functions list.

Open Scope Z_scope.

(** ** Python helpers *)

(** [range(n)]. *)
Definition range (n : Z) : list Z := seqZ 0 n.

(** [m[y][x]] on a list of rows.  Every read in the modelled methods is
    behind a test [0 <= x < GRID_SIZE and 0 <= y < GRID_SIZE] (or is made
    by a caller that has passed it), so the default is not observed on
    a board of the right shape. *)
Definition cell {A} (d : A) (m : list (list A)) (x y : Z) : A :=
  default d (row ← m !! Z.to_nat y; row !! Z.to_nat x).

(** [m[y][x] = v]. *)
Definition set_cell {A} (m : list (list A)) (x y : Z) (v : A) : list (list A) :=
  alter (λ row, <[Z.to_nat x := v]> row) (Z.to_nat y) m.

(** The double loop [for dx in [-1, 0, 1]: for dy in [-1, 0, 1]]. *)
Definition offsets : list (Z * Z) :=
  Eval cbv in (dx ← [-1; 0; 1]; dy ← [-1; 0; 1]; [(dx, dy)]).

(** A [for] loop whose body may raise: the state is threaded through the
    elements in order, and an exception ([None]) ends the loop. *)
Definition for_each {S A} (l : list A) (body : S → A → option S) (s : S) : option S :=
  fold_left (λ acc a, acc ≫= λ s', body s' a) l (Some s).

(** [l.remove(a)]: the first occurrence is removed; [ValueError] when
    there is none. *)
Fixpoint list_remove {A} `{EqDecision A} (a : A) (l : list A) : option (list A) :=
  match l with
  | [] => None
  | b :: l' => if decide (a = b) then Some l' else cons b <$> list_remove a l'
  end.

(** [s.add(a)] on a set kept as a duplicate-free list. *)
Definition set_add (a : Z) (s : list Z) : list Z :=
  if decide (a ∈ s) then s else s ++ [a].

(** [random.sample(population, k)]: [k] elements at distinct positions of
    the population.  Each draw picks a position of what is left of the
    pool; a missing draw counts as 0. *)
Fixpoint sample_from {A} (draws : list nat) (pool : list A) (k : nat) : list A :=
  match k with
  | O => []
  | S k' =>
      let j := (hd 0%nat draws mod length pool)%nat in
      match pool !! j with
      | Some a => a :: sample_from (tl draws) (delete j pool) k'
      | None => []
      end
  end.

(** [ValueError] ([None]) when the sample is larger than the population
    or negative. *)
Definition random_sample {A} (draws : list nat) (population : list A) (k : Z)
  : option (list A) :=
  if decide (0 ≤ k ≤ Z.of_nat (length population))
  then Some (sample_from draws population (Z.to_nat k))
  else None.

(** [int(f)] for a float: truncation towards zero; [ValueError] or
    [OverflowError] ([None]) on a NaN or an infinity. *)
Definition float_to_int (f : float) : option Z :=
  match Prim2SF f with
  | S754_zero _ => Some 0
  | S754_finite s m e =>
      let a := if (0 <=? e) then Z.shiftl (Z.pos m) e else Z.shiftr (Z.pos m) (- e) in
      Some (if s then - a else a)
  | _ => None
  end.

(** The wall clock: the value returned by the n-th call of [time.time()]. *)
Definition Clock := nat → float.

(** ** class Achievement *)

Module Achievement.
Record t := mk { unlocked : bool; unlock_time : option float }.

(** [__init__] (name, description and icon are presentation only). *)
Definition init : t := mk false None.

(** [unlock], with the value of [time.time()] it would read. *)
Definition unlock (now : float) (a : t) : t :=
  if negb (unlocked a) then mk true (Some now) else a.
End Achievement.

Inductive AchievementKey :=
  first_win | speed_demon | combo_master | perfectionist | theme_explorer | hard_victory.

#[global] Instance AchievementKey_eq_dec : EqDecision AchievementKey.
Proof. solve_decision. Defined.

(** ** class PowerUp and its three subclasses *)

Inductive PowerUpKey := reveal | freeze | safety.

#[global] Instance PowerUpKey_eq_dec : EqDecision PowerUpKey.
Proof. solve_decision. Defined.

Module PowerUp.
(** The fields of [PowerUp]; [frozen_time] is [TimeFreezeePowerUp]'s own
    field and stays 0 in the other two. *)
Record t := mk {
  active : bool;
  start_time : option float;
  duration : option float;
  frozen_time : Z
}.

(** The three constructors as [Minesweeper.__init__] calls them. *)
Definition init (k : PowerUpKey) : t :=
  match k with
  | reveal => mk false None None 0
  | freeze => mk false None (Some 5%float) 0
  | safety => mk false None (Some 10%float) 0
  end.

(** [is_expired], with the value of [time.time()] it reads in its last
    line.  An active power-up with a duration has a start time (both
    [activate] methods that set one set the other). *)
Definition is_expired (now : float) (p : t) : bool :=
  if negb (active p) then false else
  match duration p, start_time p with
  | Some d, Some s => PrimFloat.ltb d (PrimFloat.sub now s)
  | _, _ => false
  end.
End PowerUp.

(** ** class Difficulty *)

Inductive Difficulty := EASY | MEDIUM | HARD.

#[global] Instance Difficulty_eq_dec : EqDecision Difficulty.
Proof. solve_decision. Defined.

(** [Difficulty.value]: (grid size, mines). *)
Definition Difficulty_value (d : Difficulty) : Z * Z :=
  match d with
  | EASY => (8, 10)
  | MEDIUM => (15, 35)
  | HARD => (20, 80)
  end.

(** ** class Animation *)

Inductive AnimType := anim_reveal | anim_chord | anim_flag.

Module Animation.
(** [active_cells]: [(x, y, start_time, duration, type)].  The pulse and
    wave fields are sines of the clock read by the renderer only. *)
Record t := mk { active_cells : list (Z * Z * float * float * AnimType) }.

Definition init : t := mk [].

(** The binary64 number that the literal [0.3] denotes. *)
Definition reveal_duration : float := 0x1.3333333333333p-2%float.

(** [add_reveal], with the value of [time.time()] it reads. *)
Definition add_reveal (now : float) (x y : Z) (anim_type : AnimType) (a : t) : t :=
  mk (active_cells a ++ [(x, y, now, reveal_duration, anim_type)]).

(** [update]: the cells whose animation has not run out are kept. *)
Definition update (current_time : float) (a : t) : t :=
  mk (List.filter
        (λ c, match c with
              | (_, _, start, dur, _) => PrimFloat.ltb (PrimFloat.sub current_time start) dur
              end)
        (active_cells a)).
End Animation.

(** ** class Minesweeper *)

Definition CELL_SIZE : Z := 40.

(** [len(self.themes)]. *)
Definition themes_len : Z := 3.

(** The attributes of a game object.  [high_scores] holds [None] for
    [float('inf')].  [time_reads] is the number of [time.time()] calls made
    so far by the modelled methods.  The screen, the fonts and the
    particle system hold nothing the rules read. *)
Record Minesweeper := mkMinesweeper {
  difficulty : Difficulty;
  GRID_SIZE : Z;
  MINES : Z;
  current_theme : Z;
  themes_tried : list Z;
  animation : Animation.t;
  high_scores : Difficulty → option Z;
  grid : list (list Z);
  revealed : list (list bool);
  flagged : list (list bool);
  game_over : bool;
  win : bool;
  first_click : bool;
  start_time : option float;
  elapsed_time : Z;
  mines_left : Z;
  combo : Z;
  max_combo : Z;
  last_reveal_time : float;
  achievements : AchievementKey → Achievement.t;
  power_ups : PowerUpKey → PowerUp.t;
  power_up_charges : PowerUpKey → Z;
  misplaced_flags : list (Z * Z);
  time_reads : nat
}.

(** Assignment to one attribute. *)
Definition set_difficulty (v : Difficulty) (s : Minesweeper) : Minesweeper :=
  mkMinesweeper v (GRID_SIZE s) (MINES s) (current_theme s) (themes_tried s)
    (animation s) (high_scores s) (grid s) (revealed s) (flagged s) (game_over
    s) (win s) (first_click s) (start_time s) (elapsed_time s) (mines_left s)
    (combo s) (max_combo s) (last_reveal_time s) (achievements s) (power_ups s)
    (power_up_charges s) (misplaced_flags s) (time_reads s).
Definition set_GRID_SIZE (v : Z) (s : Minesweeper) : Minesweeper :=
  mkMinesweeper (difficulty s) v (MINES s) (current_theme s) (themes_tried s)
    (animation s) (high_scores s) (grid s) (revealed s) (flagged s) (game_over
    s) (win s) (first_click s) (start_time s) (elapsed_time s) (mines_left s)
    (combo s) (max_combo s) (last_reveal_time s) (achievements s) (power_ups s)
    (power_up_charges s) (misplaced_flags s) (time_reads s).
Definition set_MINES (v : Z) (s : Minesweeper) : Minesweeper :=
  mkMinesweeper (difficulty s) (GRID_SIZE s) v (current_theme s) (themes_tried
    s) (animation s) (high_scores s) (grid s) (revealed s) (flagged s)
    (game_over s) (win s) (first_click s) (start_time s) (elapsed_time s)
    (mines_left s) (combo s) (max_combo s) (last_reveal_time s) (achievements s)
    (power_ups s) (power_up_charges s) (misplaced_flags s) (time_reads s).
Definition set_current_theme (v : Z) (s : Minesweeper) : Minesweeper :=
  mkMinesweeper (difficulty s) (GRID_SIZE s) (MINES s) v (themes_tried s)
    (animation s) (high_scores s) (grid s) (revealed s) (flagged s) (game_over
    s) (win s) (first_click s) (start_time s) (elapsed_time s) (mines_left s)
    (combo s) (max_combo s) (last_reveal_time s) (achievements s) (power_ups s)
    (power_up_charges s) (misplaced_flags s) (time_reads s).
Definition set_themes_tried (v : list Z) (s : Minesweeper) : Minesweeper :=
  mkMinesweeper (difficulty s) (GRID_SIZE s) (MINES s) (current_theme s) v
    (animation s) (high_scores s) (grid s) (revealed s) (flagged s) (game_over
    s) (win s) (first_click s) (start_time s) (elapsed_time s) (mines_left s)
    (combo s) (max_combo s) (last_reveal_time s) (achievements s) (power_ups s)
    (power_up_charges s) (misplaced_flags s) (time_reads s).
Definition set_animation (v : Animation.t) (s : Minesweeper) : Minesweeper :=
  mkMinesweeper (difficulty s) (GRID_SIZE s) (MINES s) (current_theme s)
    (themes_tried s) v (high_scores s) (grid s) (revealed s) (flagged s)
    (game_over s) (win s) (first_click s) (start_time s) (elapsed_time s)
    (mines_left s) (combo s) (max_combo s) (last_reveal_time s) (achievements s)
    (power_ups s) (power_up_charges s) (misplaced_flags s) (time_reads s).
Definition set_high_scores (v : Difficulty → option Z) (s : Minesweeper) : Minesweeper :=
  mkMinesweeper (difficulty s) (GRID_SIZE s) (MINES s) (current_theme s)
    (themes_tried s) (animation s) v (grid s) (revealed s) (flagged s)
    (game_over s) (win s) (first_click s) (start_time s) (elapsed_time s)
    (mines_left s) (combo s) (max_combo s) (last_reveal_time s) (achievements s)
    (power_ups s) (power_up_charges s) (misplaced_flags s) (time_reads s).
Definition set_grid (v : list (list Z)) (s : Minesweeper) : Minesweeper :=
  mkMinesweeper (difficulty s) (GRID_SIZE s) (MINES s) (current_theme s)
    (themes_tried s) (animation s) (high_scores s) v (revealed s) (flagged s)
    (game_over s) (win s) (first_click s) (start_time s) (elapsed_time s)
    (mines_left s) (combo s) (max_combo s) (last_reveal_time s) (achievements s)
    (power_ups s) (power_up_charges s) (misplaced_flags s) (time_reads s).
Definition set_revealed (v : list (list bool)) (s : Minesweeper) : Minesweeper :=
  mkMinesweeper (difficulty s) (GRID_SIZE s) (MINES s) (current_theme s)
    (themes_tried s) (animation s) (high_scores s) (grid s) v (flagged s)
    (game_over s) (win s) (first_click s) (start_time s) (elapsed_time s)
    (mines_left s) (combo s) (max_combo s) (last_reveal_time s) (achievements s)
    (power_ups s) (power_up_charges s) (misplaced_flags s) (time_reads s).
Definition set_flagged (v : list (list bool)) (s : Minesweeper) : Minesweeper :=
  mkMinesweeper (difficulty s) (GRID_SIZE s) (MINES s) (current_theme s)
    (themes_tried s) (animation s) (high_scores s) (grid s) (revealed s) v
    (game_over s) (win s) (first_click s) (start_time s) (elapsed_time s)
    (mines_left s) (combo s) (max_combo s) (last_reveal_time s) (achievements s)
    (power_ups s) (power_up_charges s) (misplaced_flags s) (time_reads s).
Definition set_game_over (v : bool) (s : Minesweeper) : Minesweeper :=
  mkMinesweeper (difficulty s) (GRID_SIZE s) (MINES s) (current_theme s)
    (themes_tried s) (animation s) (high_scores s) (grid s) (revealed s)
    (flagged s) v (win s) (first_click s) (start_time s) (elapsed_time s)
    (mines_left s) (combo s) (max_combo s) (last_reveal_time s) (achievements s)
    (power_ups s) (power_up_charges s) (misplaced_flags s) (time_reads s).
Definition set_win (v : bool) (s : Minesweeper) : Minesweeper :=
  mkMinesweeper (difficulty s) (GRID_SIZE s) (MINES s) (current_theme s)
    (themes_tried s) (animation s) (high_scores s) (grid s) (revealed s)
    (flagged s) (game_over s) v (first_click s) (start_time s) (elapsed_time s)
    (mines_left s) (combo s) (max_combo s) (last_reveal_time s) (achievements s)
    (power_ups s) (power_up_charges s) (misplaced_flags s) (time_reads s).
Definition set_first_click (v : bool) (s : Minesweeper) : Minesweeper :=
  mkMinesweeper (difficulty s) (GRID_SIZE s) (MINES s) (current_theme s)
    (themes_tried s) (animation s) (high_scores s) (grid s) (revealed s)
    (flagged s) (game_over s) (win s) v (start_time s) (elapsed_time s)
    (mines_left s) (combo s) (max_combo s) (last_reveal_time s) (achievements s)
    (power_ups s) (power_up_charges s) (misplaced_flags s) (time_reads s).
Definition set_start_time (v : option float) (s : Minesweeper) : Minesweeper :=
  mkMinesweeper (difficulty s) (GRID_SIZE s) (MINES s) (current_theme s)
    (themes_tried s) (animation s) (high_scores s) (grid s) (revealed s)
    (flagged s) (game_over s) (win s) (first_click s) v (elapsed_time s)
    (mines_left s) (combo s) (max_combo s) (last_reveal_time s) (achievements s)
    (power_ups s) (power_up_charges s) (misplaced_flags s) (time_reads s).
Definition set_elapsed_time (v : Z) (s : Minesweeper) : Minesweeper :=
  mkMinesweeper (difficulty s) (GRID_SIZE s) (MINES s) (current_theme s)
    (themes_tried s) (animation s) (high_scores s) (grid s) (revealed s)
    (flagged s) (game_over s) (win s) (first_click s) (start_time s) v
    (mines_left s) (combo s) (max_combo s) (last_reveal_time s) (achievements s)
    (power_ups s) (power_up_charges s) (misplaced_flags s) (time_reads s).
Definition set_mines_left (v : Z) (s : Minesweeper) : Minesweeper :=
  mkMinesweeper (difficulty s) (GRID_SIZE s) (MINES s) (current_theme s)
    (themes_tried s) (animation s) (high_scores s) (grid s) (revealed s)
    (flagged s) (game_over s) (win s) (first_click s) (start_time s)
    (elapsed_time s) v (combo s) (max_combo s) (last_reveal_time s)
    (achievements s) (power_ups s) (power_up_charges s) (misplaced_flags s)
    (time_reads s).
Definition set_combo (v : Z) (s : Minesweeper) : Minesweeper :=
  mkMinesweeper (difficulty s) (GRID_SIZE s) (MINES s) (current_theme s)
    (themes_tried s) (animation s) (high_scores s) (grid s) (revealed s)
    (flagged s) (game_over s) (win s) (first_click s) (start_time s)
    (elapsed_time s) (mines_left s) v (max_combo s) (last_reveal_time s)
    (achievements s) (power_ups s) (power_up_charges s) (misplaced_flags s)
    (time_reads s).
Definition set_max_combo (v : Z) (s : Minesweeper) : Minesweeper :=
  mkMinesweeper (difficulty s) (GRID_SIZE s) (MINES s) (current_theme s)
    (themes_tried s) (animation s) (high_scores s) (grid s) (revealed s)
    (flagged s) (game_over s) (win s) (first_click s) (start_time s)
    (elapsed_time s) (mines_left s) (combo s) v (last_reveal_time s)
    (achievements s) (power_ups s) (power_up_charges s) (misplaced_flags s)
    (time_reads s).
Definition set_last_reveal_time (v : float) (s : Minesweeper) : Minesweeper :=
  mkMinesweeper (difficulty s) (GRID_SIZE s) (MINES s) (current_theme s)
    (themes_tried s) (animation s) (high_scores s) (grid s) (revealed s)
    (flagged s) (game_over s) (win s) (first_click s) (start_time s)
    (elapsed_time s) (mines_left s) (combo s) (max_combo s) v (achievements s)
    (power_ups s) (power_up_charges s) (misplaced_flags s) (time_reads s).
Definition set_achievements (v : AchievementKey → Achievement.t) (s : Minesweeper) : Minesweeper :=
  mkMinesweeper (difficulty s) (GRID_SIZE s) (MINES s) (current_theme s)
    (themes_tried s) (animation s) (high_scores s) (grid s) (revealed s)
    (flagged s) (game_over s) (win s) (first_click s) (start_time s)
    (elapsed_time s) (mines_left s) (combo s) (max_combo s) (last_reveal_time s)
    v (power_ups s) (power_up_charges s) (misplaced_flags s) (time_reads s).
Definition set_power_ups (v : PowerUpKey → PowerUp.t) (s : Minesweeper) : Minesweeper :=
  mkMinesweeper (difficulty s) (GRID_SIZE s) (MINES s) (current_theme s)
    (themes_tried s) (animation s) (high_scores s) (grid s) (revealed s)
    (flagged s) (game_over s) (win s) (first_click s) (start_time s)
    (elapsed_time s) (mines_left s) (combo s) (max_combo s) (last_reveal_time s)
    (achievements s) v (power_up_charges s) (misplaced_flags s) (time_reads s).
Definition set_power_up_charges (v : PowerUpKey → Z) (s : Minesweeper) : Minesweeper :=
  mkMinesweeper (difficulty s) (GRID_SIZE s) (MINES s) (current_theme s)
    (themes_tried s) (animation s) (high_scores s) (grid s) (revealed s)
    (flagged s) (game_over s) (win s) (first_click s) (start_time s)
    (elapsed_time s) (mines_left s) (combo s) (max_combo s) (last_reveal_time s)
    (achievements s) (power_ups s) v (misplaced_flags s) (time_reads s).
Definition set_misplaced_flags (v : list (Z * Z)) (s : Minesweeper) : Minesweeper :=
  mkMinesweeper (difficulty s) (GRID_SIZE s) (MINES s) (current_theme s)
    (themes_tried s) (animation s) (high_scores s) (grid s) (revealed s)
    (flagged s) (game_over s) (win s) (first_click s) (start_time s)
    (elapsed_time s) (mines_left s) (combo s) (max_combo s) (last_reveal_time s)
    (achievements s) (power_ups s) (power_up_charges s) v (time_reads s).
Definition set_time_reads (v : nat) (s : Minesweeper) : Minesweeper :=
  mkMinesweeper (difficulty s) (GRID_SIZE s) (MINES s) (current_theme s)
    (themes_tried s) (animation s) (high_scores s) (grid s) (revealed s)
    (flagged s) (game_over s) (win s) (first_click s) (start_time s)
    (elapsed_time s) (mines_left s) (combo s) (max_combo s) (last_reveal_time s)
    (achievements s) (power_ups s) (power_up_charges s) (misplaced_flags s) v.

(** [time.time()]: the next value of the clock. *)
Definition time_time (clock : Clock) (s : Minesweeper) : float * Minesweeper :=
  (clock (time_reads s), set_time_reads (S (time_reads s)) s).

(** [0 <= x < self.GRID_SIZE and 0 <= y < self.GRID_SIZE]. *)
Definition in_grid (s : Minesweeper) (x y : Z) : bool :=
  (0 <=? x) && (x <? GRID_SIZE s) && (0 <=? y) && (y <? GRID_SIZE s).

(** [update_grid_size] (the window is resized besides). *)
Definition update_grid_size (s : Minesweeper) : Minesweeper :=
  let '(n, m) := Difficulty_value (difficulty s) in
  set_MINES m (set_GRID_SIZE n s).

(** [reset_game]. *)
Definition reset_game (s : Minesweeper) : Minesweeper :=
  let n := Z.to_nat (GRID_SIZE s) in
  let s := set_grid (replicate n (replicate n 0)) s in
  let s := set_revealed (replicate n (replicate n false)) s in
  let s := set_flagged (replicate n (replicate n false)) s in
  let s := set_game_over false s in
  let s := set_win false s in
  let s := set_first_click true s in
  let s := set_start_time None s in
  let s := set_elapsed_time 0 s in
  let s := set_mines_left (MINES s) s in
  let s := set_combo 0 s in
  let s := set_max_combo 0 s in
  let s := set_last_reveal_time 0%float s in
  set_animation Animation.init s.

(** The content of [minesweeper_save.json] as [load_game] reads it. *)
Record SaveData := mkSaveData {
  sd_high_scores : list (Difficulty * option Z);
  sd_achievements : list (AchievementKey * bool);
  sd_power_up_charges : PowerUpKey → Z;
  sd_themes_tried : list Z
}.

(** [self.achievements.achievements[k].unlock()]: the clock is read only
    when the achievement was locked. *)
Definition unlock_achievement (clock : Clock) (k : AchievementKey) (s : Minesweeper)
  : Minesweeper :=
  if Achievement.unlocked (achievements s k) then s else
  let '(now, s) := time_time clock s in
  set_achievements (<[k := Achievement.unlock now (achievements s k)]> (achievements s)) s.

(** [load_game]: [None] is the missing file ([FileNotFoundError], passed
    over). *)
Definition load_game (clock : Clock) (save : option SaveData) (s : Minesweeper)
  : Minesweeper :=
  match save with
  | None => s
  | Some d =>
      let s := fold_left (λ s '(diff, score), set_high_scores (<[diff := score]> (high_scores s)) s)
                 (sd_high_scores d) s in
      let s := fold_left (λ s '(name, u), if u : bool then unlock_achievement clock name s else s)
                 (sd_achievements d) s in
      let s := set_power_up_charges (sd_power_up_charges d) s in
      set_themes_tried (remove_dups (sd_themes_tried d)) s
  end.

(** [__init__]. *)
Definition Minesweeper_init (clock : Clock) (save : option SaveData) : Minesweeper :=
  let s := mkMinesweeper MEDIUM 0 0 0 [] Animation.init (λ _, None) [] [] []
             false false true None 0 0 0 0 0%float
             (λ _, Achievement.init) PowerUp.init (λ _, 3) [] 0 in
  let s := update_grid_size s in
  let s := reset_game s in
  load_game clock save s.

(** The candidates of [place_mines]: every cell further than one step
    from the first click. *)
Definition positions (n first_x first_y : Z) : list (Z * Z) :=
  x ← range n; y ← range n;
  if (1 <? Z.abs (x - first_x)) || (1 <? Z.abs (y - first_y)) then [(x, y)] else [].

(** The body of the inner loops of [place_mines] around the mine
    (x, y): the cell at the offset counts one mine more when it is in
    the grid and is no mine. *)
Definition count_up (n x y : Z) (g : list (list Z)) (d : Z * Z) : list (list Z) :=
  let '(dx, dy) := d in
  let new_x := x + dx in
  let new_y := y + dy in
  if (0 <=? new_x) && (new_x <? n) && (0 <=? new_y) && (new_y <? n)
     && negb (cell 0 g new_x new_y =? -1)
  then set_cell g new_x new_y (cell 0 g new_x new_y + 1)
  else g.

(** The body of the outer loop of [place_mines]: the cell becomes a
    mine, then the cells around it count it. *)
Definition place_mine (n : Z) (g : list (list Z)) (p : Z * Z) : list (list Z) :=
  let '(x, y) := p in
  let g := set_cell g x y (-1) in
  fold_left (count_up n x y) offsets g.

(** [place_mines]. *)
Definition place_mines (draws : list nat) (s : Minesweeper) (first_x first_y : Z)
  : option Minesweeper :=
  mine_positions ← random_sample draws (positions (GRID_SIZE s) first_x first_y) (MINES s);
  Some (set_grid (fold_left (place_mine (GRID_SIZE s)) mine_positions (grid s)) s).

(** Lines 311-317 of [reveal_cell]: the combo counter. *)
Definition combo_update (current_time : float) (s : Minesweeper) : Minesweeper :=
  let s :=
    if PrimFloat.ltb (PrimFloat.sub current_time (last_reveal_time s)) 1%float
    then
      let s := set_combo (combo s + 1) s in
      set_max_combo (Z.max (max_combo s) (combo s)) s
    else set_combo 1 s in
  set_last_reveal_time current_time s.

(** Lines 311-320 of [reveal_cell]: what one call does to a cell it does
    not skip, before it looks at the cell's count. *)
Definition reveal_one (clock : Clock) (s : Minesweeper) (x y : Z) : Minesweeper :=
  let '(current_time, s) := time_time clock s in
  let s := combo_update current_time s in
  let s := set_revealed (set_cell (revealed s) x y true) s in
  let '(now, s) := time_time clock s in
  set_animation (Animation.add_reveal now x y anim_reveal (animation s)) s.

(** The test of the first line of [reveal_cell]. *)
Definition reveal_skips (s : Minesweeper) (x y : Z) : bool :=
  negb (in_grid s x y) || cell false (revealed s) x y || cell false (flagged s) x y.

(** [reveal_cell].  [frames] is the number of stack frames the call may
    still use, its own included; [None] is [RecursionError]. *)
Fixpoint reveal_cell (clock : Clock) (frames : nat) (s : Minesweeper) (x y : Z)
  : option Minesweeper :=
  match frames with
  | O => None
  | S frames' =>
      if reveal_skips s x y then Some s else
      let s := reveal_one clock s x y in
      if cell 0 (grid s) x y =? 0
      then for_each offsets
             (λ s '(dx, dy), reveal_cell clock frames' s (x + dx) (y + dy)) s
      else Some s
  end.

(** The first loop of [chord_reveal]: the flags in the 3x3 block. *)
Definition flag_count (s : Minesweeper) (x y : Z) : Z :=
  fold_left
    (λ c '(dx, dy),
       if in_grid s (x + dx) (y + dy) && cell false (flagged s) (x + dx) (y + dy)
       then c + 1 else c)
    offsets 0.

(** The second loop of [chord_reveal] over the offsets that are left.  A
    mine among the cells to open ends the game and the loop ([return
    True]).  [revealed_count] only decides a particle effect. *)
Fixpoint chord_loop (clock : Clock) (frames : nat) (s : Minesweeper) (x y : Z)
    (offs : list (Z * Z)) : option Minesweeper :=
  match offs with
  | [] => Some s
  | (dx, dy) :: rest =>
      let new_x := x + dx in
      let new_y := y + dy in
      if in_grid s new_x new_y && negb (cell false (flagged s) new_x new_y)
         && negb (cell false (revealed s) new_x new_y)
      then
        if cell 0 (grid s) new_x new_y =? -1 then Some (set_game_over true s)
        else
          s ← reveal_cell clock frames s new_x new_y;
          let '(now, s) := time_time clock s in
          let s := set_animation
                     (Animation.add_reveal now new_x new_y anim_chord (animation s)) s in
          chord_loop clock frames s x y rest
      else chord_loop clock frames s x y rest
  end.

(** [chord_reveal]: the returned boolean and the game after the call. *)
Definition chord_reveal (clock : Clock) (frames : nat) (s : Minesweeper) (x y : Z)
  : option (bool * Minesweeper) :=
  if negb (cell false (revealed s) x y) || (cell 0 (grid s) x y <=? 0)
  then Some (false, s)
  else if flag_count s x y =? cell 0 (grid s) x y
  then s' ← chord_loop clock frames s x y offsets; Some (true, s')
  else Some (false, s).

(** [self.active = True] and the like on one power-up. *)
Definition set_power_up (k : PowerUpKey) (p : PowerUp.t) (s : Minesweeper) : Minesweeper :=
  set_power_ups (<[k := p]> (power_ups s)) s.

(** [RevealAreaPowerUp.activate]. *)
Definition RevealArea_activate (clock : Clock) (frames : nat) (s : Minesweeper) (x y : Z)
  : option Minesweeper :=
  let p := power_ups s reveal in
  let s := set_power_up reveal
             (PowerUp.mk true (PowerUp.start_time p) (PowerUp.duration p)
                (PowerUp.frozen_time p)) s in
  for_each (dx ← seqZ (-2) 5; dy ← seqZ (-2) 5; [(dx, dy)])
    (λ s '(dx, dy),
       let new_x := x + dx in
       let new_y := y + dy in
       if in_grid s new_x new_y && negb (cell false (revealed s) new_x new_y)
          && negb (cell 0 (grid s) new_x new_y =? -1)
       then reveal_cell clock frames s new_x new_y
       else Some s)
    s.

(** [TimeFreezeePowerUp.activate]. *)
Definition TimeFreeze_activate (clock : Clock) (s : Minesweeper) : Minesweeper :=
  let p := power_ups s freeze in
  let '(now, s) := time_time clock s in
  set_power_up freeze (PowerUp.mk true (Some now) (PowerUp.duration p) (elapsed_time s)) s.

(** [TimeFreezeePowerUp.update]; [is_expired] reads the clock. *)
Definition TimeFreeze_update (clock : Clock) (s : Minesweeper) : Minesweeper :=
  let p := power_ups s freeze in
  if PowerUp.active p then
    let '(now, s) := time_time clock s in
    if negb (PowerUp.is_expired now p) then set_elapsed_time (PowerUp.frozen_time p) s else s
  else s.

(** [SafetyNetPowerUp.activate]. *)
Definition SafetyNet_activate (clock : Clock) (s : Minesweeper) : Minesweeper :=
  let p := power_ups s safety in
  let '(now, s) := time_time clock s in
  set_power_up safety
    (PowerUp.mk true (Some now) (PowerUp.duration p) (PowerUp.frozen_time p)) s.

(** [SafetyNetPowerUp.update]. *)
Definition SafetyNet_update (clock : Clock) (s : Minesweeper) : Minesweeper :=
  let p := power_ups s safety in
  if PowerUp.active p then
    let '(now, s) := time_time clock s in
    if PowerUp.is_expired now p
    then set_power_up safety
           (PowerUp.mk false (PowerUp.start_time p) (PowerUp.duration p)
              (PowerUp.frozen_time p)) s
    else s
  else s.

(** [any(p.active for p in self.power_ups.values())]. *)
Definition any_power_up_active (s : Minesweeper) : bool :=
  PowerUp.active (power_ups s reveal) || PowerUp.active (power_ups s freeze)
  || PowerUp.active (power_ups s safety).

(** The generator [for y in range(n) for x in range(n) if p(x, y)]. *)
Definition cells_where (n : Z) (p : Z → Z → bool) : list (Z * Z) :=
  y ← range n; x ← range n; if p x y then [(x, y)] else [].

(** The cells [check_win] counts: those not revealed. *)
Definition unrevealed (s : Minesweeper) : list (Z * Z) :=
  cells_where (GRID_SIZE s) (λ x y, negb (cell false (revealed s) x y)).

(** [check_win]. *)
Definition check_win (s : Minesweeper) : Minesweeper :=
  if Z.of_nat (length (unrevealed s)) =? MINES s then
    let s := set_win true s in
    if 0 <? elapsed_time s then
      let best := match high_scores s (difficulty s) with
                  | Some h => Z.min h (elapsed_time s)
                  | None => elapsed_time s
                  end in
      set_high_scores (<[difficulty s := Some best]> (high_scores s)) s
    else s
  else s.

(** [pygame.key.get_pressed()], the three keys [handle_click] looks at. *)
Record Keys := mkKeys { K_1 : bool; K_2 : bool; K_3 : bool }.

Definition no_keys : Keys := mkKeys false false false.

(** Lines 400-410 of [handle_click]: a held key activates its power-up
    when a charge is left. *)
Definition activate_power_up (clock : Clock) (frames : nat) (keys : Keys)
    (s : Minesweeper) (x y : Z) : option Minesweeper :=
  let use k s := set_power_up_charges (<[k := power_up_charges s k - 1]> (power_up_charges s)) s in
  if K_1 keys && (0 <? power_up_charges s reveal) then
    s ← RevealArea_activate clock frames s x y; Some (use reveal s)
  else if K_2 keys && (0 <? power_up_charges s freeze) then
    Some (use freeze (TimeFreeze_activate clock s))
  else if K_3 keys && (0 <? power_up_charges s safety) then
    Some (use safety (SafetyNet_activate clock s))
  else Some s.

(** Lines 412-427 of [handle_click]: a right click on the cell. *)
Definition toggle_flag (clock : Clock) (s : Minesweeper) (x y : Z) : option Minesweeper :=
  if cell false (revealed s) x y then Some s else
  let was_flagged := cell false (flagged s) x y in
  let s := set_flagged (set_cell (flagged s) x y (negb was_flagged)) s in
  let s := set_mines_left (mines_left s + (if negb was_flagged then 1 else -1)) s in
  s ← (if negb (cell 0 (grid s) x y =? -1) && negb was_flagged
       then Some (set_misplaced_flags (misplaced_flags s ++ [(x, y)]) s)
       else if negb (cell 0 (grid s) x y =? -1) && was_flagged
       then l ← list_remove (x, y) (misplaced_flags s); Some (set_misplaced_flags l s)
       else Some s);
  if negb was_flagged then
    let '(now, s) := time_time clock s in
    Some (set_animation (Animation.add_reveal now x y anim_flag (animation s)) s)
  else Some s.

(** The theme button and the [t] key. *)
Definition cycle_theme (s : Minesweeper) : Minesweeper :=
  let s := set_current_theme ((current_theme s + 1) mod themes_len) s in
  set_themes_tried (set_add (current_theme s) (themes_tried s)) s.

(** [self.difficulty = d; self.update_grid_size(); self.reset_game()]. *)
Definition change_difficulty (d : Difficulty) (s : Minesweeper) : Minesweeper :=
  reset_game (update_grid_size (set_difficulty d s)).

(** [handle_click].  [keys] are the keys held during the click, [draws]
    the random draws of a first click, [frames] the stack frames left
    for [reveal_cell]. *)
Definition handle_click (clock : Clock) (draws : list nat) (frames : nat) (keys : Keys)
    (s : Minesweeper) (pos : Z * Z) (right_click : bool) : option Minesweeper :=
  if game_over s || win s then Some s else
  let x := pos.1 / CELL_SIZE in
  let y := (pos.2 - 100) / CELL_SIZE in
  if negb (in_grid s x y) then
    if (10 <=? pos.2) && (pos.2 <=? 40) then
      if (10 <=? pos.1) && (pos.1 <=? 90) then Some (change_difficulty EASY s)
      else if (100 <=? pos.1) && (pos.1 <=? 200) then Some (change_difficulty MEDIUM s)
      else if (210 <=? pos.1) && (pos.1 <=? 290) then Some (change_difficulty HARD s)
      else Some s
    else if (50 <=? pos.2) && (pos.2 <=? 80) && (10 <=? pos.1) && (pos.1 <=? 100)
    then Some (cycle_theme s)
    else Some s
  else
  s ← activate_power_up clock frames keys s x y;
  if right_click then toggle_flag clock s x y else
  if cell false (flagged s) x y then Some s else
  r ← (if cell false (revealed s) x y && (0 <? cell 0 (grid s) x y)
       then chord_reveal clock frames s x y
       else Some (false, s));
  let '(chorded, s) := r in
  if chorded : bool then Some (check_win s) else
  s ← (if first_click s then
         s ← place_mines draws s x y;
         let s := set_first_click false s in
         let '(now, s) := time_time clock s in
         Some (set_start_time (Some now) s)
       else Some s);
  if cell 0 (grid s) x y =? -1 then
    if any_power_up_active s then Some s
    else Some (set_game_over true s)
  else
    s ← reveal_cell clock frames s x y;
    Some (check_win s).

(** [AchievementManager.check_achievements].  Its last test compares the
    set [themes_tried] with the integer [len(game.themes)], which are
    never equal, so it unlocks nothing. *)
Definition check_achievements (clock : Clock) (s : Minesweeper) : Minesweeper :=
  let s :=
    if win s then
      let s := unlock_achievement clock first_win s in
      let s := if elapsed_time s <? 30 then unlock_achievement clock speed_demon s else s in
      let s := if decide (difficulty s = HARD)
               then unlock_achievement clock hard_victory s else s in
      match misplaced_flags s with
      | [] => unlock_achievement clock perfectionist s
      | _ :: _ => s
      end
    else s in
  if 10 <=? max_combo s then unlock_achievement clock combo_master s else s.

(** What [draw] does to the game: the timer is recomputed from the
    clock, and the animations that ran out are dropped.  [None] is the
    exception of [int] on a NaN or an infinity. *)
Definition draw (clock : Clock) (s : Minesweeper) : option Minesweeper :=
  s ← match start_time s with
      | Some t0 =>
          if PrimFloat.eqb t0 0%float then Some s else
          let '(now, s) := time_time clock s in
          e ← float_to_int (PrimFloat.sub now t0);
          Some (set_elapsed_time e s)
      | None => Some s
      end;
  let '(_, s) := time_time clock s in
  let '(current_time, s) := time_time clock s in
  Some (set_animation (Animation.update current_time (animation s)) s).

(** The events [run] acts on.  A mouse event carries what [handle_click]
    takes from its environment: the keys held and the random draws. *)
Inductive Key := K_r | K_t | K_other.

Inductive Event :=
  | QUIT
  | MOUSEBUTTONDOWN (pos : Z * Z) (button : Z) (keys : Keys) (draws : list nat)
  | KEYDOWN (key : Key).

(** CPython's default recursion limit, and the frames in use when
    [reveal_cell] is entered ([<module>], [run], [handle_click], and
    [chord_reveal] or [activate]). *)
Definition recursion_limit : nat := 1000.
Definition frames_left : nat := (recursion_limit - 4)%nat.

(** One event of the inner loop of [run]. *)
Definition handle_event (clock : Clock) (s : Minesweeper) (e : Event) : option Minesweeper :=
  match e with
  | QUIT => Some s
  | MOUSEBUTTONDOWN pos button keys draws =>
      if (button =? 1) || (button =? 3)
      then handle_click clock draws frames_left keys s pos (button =? 3)
      else Some s
  | KEYDOWN K_r => Some (reset_game s)
  | KEYDOWN K_t => Some (cycle_theme s)
  | KEYDOWN K_other => Some s
  end.

(** One turn of the loop of [run] with the events of that turn (the
    periodic save writes a file and changes nothing). *)
Definition run_iteration (clock : Clock) (s : Minesweeper) (events : list Event)
  : option Minesweeper :=
  let '(_, s) := time_time clock s in
  s ← for_each events (handle_event clock) s;
  let s := check_achievements clock s in
  draw clock s.

(** The loop of [run] over the events of successive turns. *)
Definition run (clock : Clock) (s : Minesweeper) (turns : list (list Event))
  : option Minesweeper :=
  for_each turns (run_iteration clock) s.

(** * Vocabulary of the properties *)

(** A board of [n] rows of [n] cells. *)
Definition shaped {A} (n : Z) (m : list (list A)) : Prop :=
  length m = Z.to_nat n ∧ Forall (λ row, length row = Z.to_nat n) m.

(** The three boards of a game have the size the game records. *)
Definition board_ok (s : Minesweeper) : Prop :=
  shaped (GRID_SIZE s) (grid s) ∧ shaped (GRID_SIZE s) (revealed s)
  ∧ shaped (GRID_SIZE s) (flagged s).

(** The cells of the 3x3 block around a cell, in the order of the loops. *)
Definition neighbours (x y : Z) : list (Z * Z) :=
  (λ '(dx, dy), (x + dx, y + dy)) <$> offsets.

(** A cell [reveal_cell] does not skip: in the grid, not revealed and
    not flagged. *)
Definition eligible (s : Minesweeper) (c : Z * Z) : Prop :=
  reveal_skips s c.1 c.2 = false.

(** What [reveal_cell] may change: the revealed cells, the combo
    counters, the animations and the clock.  [reveal_effect s s'] is [s]
    with those attributes taken from [s']. *)
Definition reveal_effect (s s' : Minesweeper) : Minesweeper :=
  set_revealed (revealed s')
    (set_combo (combo s')
       (set_max_combo (max_combo s')
          (set_last_reveal_time (last_reveal_time s')
             (set_animation (animation s')
                (set_time_reads (time_reads s') s))))).

(** The cells the reveal animations of a game were started for: one
    entry for every execution of [self.revealed[y][x] = True]. *)
Definition reveal_log (s : Minesweeper) : list (Z * Z) :=
  (λ '(x, y, _, _, _), (x, y)) <$> Animation.active_cells (animation s).

(** The cells a flood fill from [start] reaches: [start] if it is not
    skipped, and every cell that is not skipped in the 3x3 block of a
    reached cell of count 0. *)
Inductive region (s : Minesweeper) (start : Z * Z) : Z * Z → Prop :=
  | region_start : eligible s start → region s start start
  | region_step c c' :
      region s start c → cell 0 (grid s) c.1 c.2 = 0 →
      c' ∈ neighbours c.1 c.2 → eligible s c' → region s start c'.

(** The nested calls of [reveal_cell] as a relation: [reveal_all clock s cs
    new s'] when calling [reveal_cell] on the cells [cs] in turn from
    [s] ends in [s'], having marked the cells [new] in that order. *)
Inductive reveal_all (clock : Clock) : Minesweeper → list (Z * Z) → list (Z * Z) → Minesweeper → Prop :=
  | reveal_nil s : reveal_all clock s [] [] s
  | reveal_skip s x y cs new s' :
      reveal_skips s x y = true → reveal_all clock s cs new s' →
      reveal_all clock s ((x, y) :: cs) new s'
  | reveal_leaf s x y cs new s' :
      reveal_skips s x y = false → cell 0 (grid s) x y ≠ 0 →
      reveal_all clock (reveal_one clock s x y) cs new s' →
      reveal_all clock s ((x, y) :: cs) ((x, y) :: new) s'
  | reveal_node s x y cs new1 s1 new2 s' :
      reveal_skips s x y = false → cell 0 (grid s) x y = 0 →
      reveal_all clock (reveal_one clock s x y) (neighbours x y) new1 s1 →
      reveal_all clock s1 cs new2 s' →
      reveal_all clock s ((x, y) :: cs) ((x, y) :: new1 ++ new2) s'.

(** Every revealed cell of the grid of [s] is revealed in [s']. *)
Definition grows (s s' : Minesweeper) : Prop :=
  ∀ a b, in_grid s a b = true →
         cell false (revealed s) a b = true → cell false (revealed s') a b = true.

(** The time that the j-th cell marked by a call of [reveal_cell] from
    [s] reads for its combo update (j from 0): every marked cell reads
    the clock twice, for the combo and for its animation. *)
Definition reveal_stamp (clock : Clock) (s : Minesweeper) (j : nat) : float :=
  clock (2 * j + time_reads s)%nat.

(** Of the first [k] cells a call marks, each but the first reads a
    time less than a second after the one before it. *)
Definition paced (clock : Clock) (s : Minesweeper) (k : nat) : Prop :=
  ∀ j, (S j < k)%nat →
       PrimFloat.ltb
         (PrimFloat.sub (reveal_stamp clock s (S j)) (reveal_stamp clock s j)) 1%float
       = true.

(** A clock that stands still: every call in a turn reads the same
    time. *)
Definition still_clock : Clock := λ _, 1700000000%float.

(** The game as [__init__] leaves it when there is no save file. *)
Definition fresh_game : Minesweeper := Minesweeper_init still_clock None.

(** The easy board, and the same after a first click on (0, 0) has
    placed the ten mines at (6,5), (6,6), (6,7) and (7,0) ... (7,6): the
    tenth to the nineteenth from last of the candidates. *)
Definition easy_game : Minesweeper := change_difficulty EASY fresh_game.

Definition easy_mined : Minesweeper :=
  default easy_game (place_mines (replicate 10 49%nat) easy_game 0 0).

(** The combo counters after reveals at the times [ts], in that order. *)
Definition reveals (ts : list float) (s : Minesweeper) : Minesweeper :=
  fold_left (λ s t, combo_update t s) ts s.

(** The value of [combo] after each of those reveals. *)
Fixpoint combo_history (ts : list float) (s : Minesweeper) : list Z :=
  match ts with
  | [] => []
  | t :: ts' => combo (combo_update t s) :: combo_history ts' (combo_update t s)
  end.

(** The values of [combo] that were reached by adding one. *)
Fixpoint fast_combos (ts : list float) (s : Minesweeper) : list Z :=
  match ts with
  | [] => []
  | t :: ts' =>
      let s' := combo_update t s in
      if PrimFloat.ltb (PrimFloat.sub t (last_reveal_time s)) 1%float
      then combo s' :: fast_combos ts' s'
      else fast_combos ts' s'
  end.

(** The largest number of a list, or [d] when no number of the list is
    larger: a running maximum that starts at [d]. *)
Definition maximum (d : Z) (l : list Z) : Z := foldr Z.max d l.

(** The easy board after the first click on (0, 0) has opened it. *)
Definition easy_opened : Minesweeper :=
  default easy_mined (reveal_cell still_clock frames_left easy_mined 0 0).

(** Chebyshev distance at most 1. *)
Definition near (m c : Z * Z) : bool :=
  (Z.abs (c.1 - m.1) <=? 1) && (Z.abs (c.2 - m.2) <=? 1).

(** The eight cells around a cell. *)
Definition neighbours8 (x y : Z) : list (Z * Z) :=
  (λ '(dx, dy), (x + dx, y + dy))
    <$> [(-1, -1); (-1, 0); (-1, 1); (0, -1); (0, 1); (1, -1); (1, 0); (1, 1)].

(** The mines of a board, and the mines among the eight neighbours of a
    cell that are in the grid. *)
Definition mines (s : Minesweeper) : list (Z * Z) :=
  cells_where (GRID_SIZE s) (λ x y, cell 0 (grid s) x y =? -1).

Definition mine_neighbours (s : Minesweeper) (x y : Z) : list (Z * Z) :=
  filter (λ c, in_grid s c.1 c.2 = true ∧ cell 0 (grid s) c.1 c.2 = -1) (neighbours8 x y).

(** The mines of a list that are next to a cell (or on it). *)
Definition count_near (c : Z * Z) (ms : list (Z * Z)) : Z :=
  Z.of_nat (length (filter (λ m, near m c = true) ms)).

(** The board after the mines [ms] have been placed on an empty one:
    every cell of [ms] is a mine, every other cell counts the cells of
    [ms] around it. *)
Definition placed (n : Z) (g : list (list Z)) (ms : list (Z * Z)) : Prop :=
  shaped n g
  ∧ ∀ a b, 0 ≤ a < n → 0 ≤ b < n →
           cell 0 g a b = if decide ((a, b) ∈ ms) then -1 else count_near (a, b) ms.


(** A point of the window inside the cell (x, y). *)
Definition at_cell (x y : Z) : Z * Z := (x * CELL_SIZE + 5, y * CELL_SIZE + 105).

(** Draws that put the ten mines at (0,2), (1,2), (2,0), (2,1) and
    (7,0) ... (7,5) on a first click at (0, 0). *)
Definition corner_draws : list nat := [0; 5; 10; 10; 48; 48; 48; 48; 48; 48]%nat.

(** The easy board after that first click: the four cells of the
    corner are revealed, and (1, 1) counts four mines. *)
Definition corner_game : Minesweeper :=
  default easy_game
    (run still_clock easy_game [[MOUSEBUTTONDOWN (at_cell 0 0) 1 no_keys corner_draws]]).


(** The same game after the safety net has been activated with key 3
    held while flagging (2, 2), which holds no mine, and flags have been
    put on the mines (2, 0), (2, 1) and (0, 2): four flags around (1, 1),
    which counts four mines, and the mine (1, 2) without one. *)
Definition netted_game : Minesweeper :=
  default corner_game
    (run still_clock corner_game
       [[MOUSEBUTTONDOWN (at_cell 2 2) 3 (mkKeys false false true) []];
        [MOUSEBUTTONDOWN (at_cell 2 0) 3 no_keys []];
        [MOUSEBUTTONDOWN (at_cell 2 1) 3 no_keys []];
        [MOUSEBUTTONDOWN (at_cell 0 2) 3 no_keys []]]).

(** The turns of a game on the easy board: a first click on (0, 0) opens
    everything but the ten mines and the corner (7, 7) behind them; then
    a right click on (7, 7) with key 1 held reveals that corner through
    the area reveal. *)
Definition area_turns : list (list Event) :=
  [[MOUSEBUTTONDOWN (at_cell 0 0) 1 no_keys (replicate 10 49%nat)];
   [MOUSEBUTTONDOWN (at_cell 7 7) 3 (mkKeys true false false) []]].

(** A clock that advances by a quarter of a second at every call. *)
Fixpoint ticking_clock (n : nat) : float :=
  match n with
  | O => 1700000000%float
  | S k => (ticking_clock k + 0.25)%float
  end.

(** The turns of a game on the easy board: a first click, two turns
    without events, and a click on the revealed cell (0, 0) with key 2
    held, which activates the time freeze. *)
Definition freeze_turns : list (list Event) :=
  [[MOUSEBUTTONDOWN (at_cell 0 0) 1 no_keys corner_draws]; []; [];
   [MOUSEBUTTONDOWN (at_cell 0 0) 1 (mkKeys false true false) []]].

(** The power-up, the timer, the time of the next call of the clock,
    and what [TimeFreezeePowerUp.update] would leave in the timer and in
    the power-up if it were called then. *)
Definition freeze_report (s : Minesweeper)
  : PowerUp.t * Z * float * Z * bool :=
  (power_ups s freeze, elapsed_time s, ticking_clock (time_reads s),
   elapsed_time (TimeFreeze_update ticking_clock s),
   PowerUp.active (power_ups (TimeFreeze_update ticking_clock s) freeze)).

(** The games [run] can reach from [__init__], whatever the save file
    and the events of each turn. *)
Inductive reachable (clock : Clock) : Minesweeper → Prop :=
  | reachable_init save : reachable clock (Minesweeper_init clock save)
  | reachable_turn s events s' :
      reachable clock s → run_iteration clock s events = Some s' → reachable clock s'.

(** A game that is marked won has as many unrevealed cells as mines. *)
Definition win_sound (s : Minesweeper) : Prop :=
  win s = true → Z.of_nat (length (unrevealed s)) = MINES s.

(** A game won from [__init__]: the easy button, the first click, the
    area reveal on the last corner, and one more click. *)
Definition won_game : Minesweeper :=
  default fresh_game
    (run still_clock fresh_game
       ([[MOUSEBUTTONDOWN (20, 20) 1 no_keys []]] ++ area_turns
        ++ [[MOUSEBUTTONDOWN (at_cell 0 0) 1 no_keys []]])).

(** The game of the corner after key 2 has taken a charge of the time
    freeze. *)
Definition charged_game : Minesweeper :=
  default corner_game
    (activate_power_up still_clock frames_left (mkKeys false true false) corner_game 0 0).

(** * Properties *)

(** ** Boards: reading and writing cells *)

Section Boards.
Context {A : Type}.
Implicit Types (m : list (list A)) (d v : A) (x y n : Z).

Lemma shaped_replicate n v :
  shaped n (replicate (Z.to_nat n) (replicate (Z.to_nat n) v)).
Proof.
  split; [apply length_replicate|].
  apply Forall_replicate, length_replicate.
Qed.

Lemma shaped_set_cell n m x y v : shaped n m → shaped n (set_cell m x y v).
Proof.
  intros [Hl Hr]. split.
  - unfold set_cell. by rewrite length_alter.
  - unfold set_cell. apply Forall_alter; [done|].
    intros row Hrow. by rewrite length_insert.
Qed.

Lemma cell_replicate d v n x y :
  0 ≤ x < n → 0 ≤ y < n →
  cell d (replicate (Z.to_nat n) (replicate (Z.to_nat n) v)) x y = v.
Proof.
  intros Hx Hy. unfold cell.
  rewrite lookup_replicate_2 by lia. simpl.
  by rewrite lookup_replicate_2 by lia.
Qed.

Lemma cell_set_cell_eq n m d x y v :
  shaped n m → 0 ≤ x < n → 0 ≤ y < n → cell d (set_cell m x y v) x y = v.
Proof.
  intros [Hl Hr] Hx Hy. unfold cell, set_cell.
  rewrite list_lookup_alter_eq.
  destruct (lookup_lt_is_Some_2 m (Z.to_nat y)) as [row Hrow]; [lia|].
  rewrite Hrow. simpl.
  rewrite list_lookup_insert_eq; [done|].
  rewrite Forall_lookup in Hr. rewrite (Hr _ _ Hrow). lia.
Qed.

Lemma cell_set_cell_ne m d x y x' y' v :
  0 ≤ x → 0 ≤ y → 0 ≤ x' → 0 ≤ y' → (x, y) ≠ (x', y') →
  cell d (set_cell m x y v) x' y' = cell d m x' y'.
Proof.
  intros Hx Hy Hx' Hy' Hne. unfold cell, set_cell.
  destruct (decide (Z.to_nat y = Z.to_nat y')) as [Ey|Ey].
  - rewrite <- Ey, list_lookup_alter_eq.
    destruct (m !! Z.to_nat y) as [row|]; [simpl|done].
    rewrite list_lookup_insert_ne; [done|].
    intros Ex. apply Hne. f_equal; lia.
  - by rewrite list_lookup_alter_ne.
Qed.

(** Reading after writing, in one statement. *)
Lemma cell_set_cell n m d x y x' y' v :
  shaped n m → 0 ≤ x < n → 0 ≤ y < n → 0 ≤ x' → 0 ≤ y' →
  cell d (set_cell m x y v) x' y'
  = if decide ((x, y) = (x', y')) then v else cell d m x' y'.
Proof.
  intros Hm Hx Hy Hx' Hy'. case_decide as E.
  - inversion E; subst. by eapply cell_set_cell_eq.
  - apply cell_set_cell_ne; (lia || done).
Qed.
End Boards.

Lemma in_grid_spec s x y :
  in_grid s x y = true ↔ 0 ≤ x < GRID_SIZE s ∧ 0 ≤ y < GRID_SIZE s.
Proof. unfold in_grid. rewrite !andb_true_iff. lia. Qed.

(** The cells a generator lists are the cells of the grid with the
    property, each listed once. *)
Lemma elem_of_cells_where n p x y :
  (x, y) ∈ cells_where n p ↔ (0 ≤ x < n ∧ 0 ≤ y < n) ∧ p x y = true.
Proof.
  unfold cells_where, range. rewrite list_elem_of_bind. split.
  - intros (y' & Hin & Hy'). apply elem_of_seqZ in Hy'.
    apply list_elem_of_bind in Hin as (x' & Hin & Hx'). apply elem_of_seqZ in Hx'.
    destruct (p x' y') eqn:E.
    + apply list_elem_of_singleton in Hin. inversion Hin; subst. split; [lia|done].
    + by apply elem_of_nil in Hin.
  - intros [[Hx Hy] E]. exists y. split; [|apply elem_of_seqZ; lia].
    apply list_elem_of_bind. exists x. split; [|apply elem_of_seqZ; lia].
    rewrite E. by apply list_elem_of_singleton.
Qed.

Lemma NoDup_cells_where n p : NoDup (cells_where n p).
Proof.
  unfold cells_where, range. apply NoDup_bind; [| |apply NoDup_seqZ].
  - intros y1 y2 [x y] _ _ H1 H2.
    apply list_elem_of_bind in H1 as (x1 & H1 & _), H2 as (x2 & H2 & _).
    destruct (p x1 y1); [|by apply elem_of_nil in H1].
    destruct (p x2 y2); [|by apply elem_of_nil in H2].
    apply list_elem_of_singleton in H1, H2. congruence.
  - intros y _. apply NoDup_bind; [| |apply NoDup_seqZ].
    + intros x1 x2 [x y'] _ _ H1 H2.
      destruct (p x1 y); [|by apply elem_of_nil in H1].
      destruct (p x2 y); [|by apply elem_of_nil in H2].
      apply list_elem_of_singleton in H1, H2. congruence.
    + intros x _. destruct (p x y); [apply NoDup_singleton|apply NoDup_nil_2].
Qed.

Lemma length_cells_where n p :
  (length (cells_where n p) ≤ Z.to_nat n * Z.to_nat n)%nat.
Proof.
  assert (Hb : ∀ {A B} (f : A → list B) (l : list A) (k : nat),
             (∀ a, length (f a) ≤ k)%nat → (length (l ≫= f) ≤ length l * k)%nat).
  { intros A B f l k Hf. induction l as [|a l IH]; [done|].
    rewrite bind_cons, length_app. specialize (Hf a). simpl. lia. }
  unfold cells_where, range.
  etrans; [apply (Hb _ _ _ _ (Z.to_nat n))|by rewrite length_seqZ].
  intros y. etrans; [apply (Hb _ _ _ _ 1%nat)|rewrite length_seqZ; lia].
  intros x. destruct (p x y); simpl; lia.
Qed.

Lemma elem_of_unrevealed s x y :
  (x, y) ∈ unrevealed s ↔ in_grid s x y = true ∧ cell false (revealed s) x y = false.
Proof.
  unfold unrevealed. by rewrite elem_of_cells_where, in_grid_spec, negb_true_iff.
Qed.

Lemma NoDup_unrevealed s : NoDup (unrevealed s).
Proof. apply NoDup_cells_where. Qed.

Lemma length_unrevealed s :
  (length (unrevealed s) ≤ Z.to_nat (GRID_SIZE s) * Z.to_nat (GRID_SIZE s))%nat.
Proof. apply length_cells_where. Qed.

(** ** Loops that may raise *)

Lemma for_each_none {S A} (l : list A) (body : S → A → option S) :
  fold_left (λ acc a, acc ≫= λ s', body s' a) l None = None.
Proof. induction l as [|a l IH]; [done|]. simpl. apply IH. Qed.

Lemma for_each_nil {S A} (body : S → A → option S) s : for_each [] body s = Some s.
Proof. done. Qed.

Lemma for_each_cons {S A} (a : A) l (body : S → A → option S) s :
  for_each (a :: l) body s = body s a ≫= for_each l body.
Proof.
  unfold for_each. simpl. destruct (body s a) as [s'|]; [done|].
  simpl. apply for_each_none.
Qed.

(** ** The flood fill of [reveal_cell] *)

Lemma eligible_spec s x y :
  eligible s (x, y) ↔
  in_grid s x y = true ∧ cell false (revealed s) x y = false
  ∧ cell false (flagged s) x y = false.
Proof.
  unfold eligible, reveal_skips. simpl.
  rewrite !orb_false_iff, negb_false_iff. tauto.
Qed.

Section Reveal.
Variable clock : Clock.

Lemma grid_reveal_one s x y : grid (reveal_one clock s x y) = grid s.
Proof. unfold reveal_one, combo_update. simpl. by case_match. Qed.

Lemma reveal_one_effect s x y :
  reveal_one clock s x y = reveal_effect s (reveal_one clock s x y).
Proof. unfold reveal_one, combo_update. simpl. by case_match. Qed.

Lemma revealed_reveal_one s x y :
  revealed (reveal_one clock s x y) = set_cell (revealed s) x y true.
Proof. unfold reveal_one, combo_update. simpl. by case_match. Qed.

Lemma time_reads_reveal_one s x y :
  time_reads (reveal_one clock s x y) = S (S (time_reads s)).
Proof. unfold reveal_one, combo_update. simpl. by case_match. Qed.

Lemma reveal_log_reveal_one s x y :
  reveal_log (reveal_one clock s x y) = reveal_log s ++ [(x, y)].
Proof.
  unfold reveal_log, reveal_one, combo_update. simpl.
  case_match; simpl; by rewrite fmap_app.
Qed.

Lemma reveal_effect_trans s1 s2 s3 :
  s2 = reveal_effect s1 s2 → s3 = reveal_effect s2 s3 → s3 = reveal_effect s1 s3.
Proof. intros H12 H23. rewrite H23, H12. by destruct s1, s2, s3. Qed.

Lemma reveal_effect_refl s : s = reveal_effect s s.
Proof. by destruct s. Qed.

Lemma reveal_all_app s cs1 new1 s1 cs2 new2 s2 :
  reveal_all clock s cs1 new1 s1 → reveal_all clock s1 cs2 new2 s2 →
  reveal_all clock s (cs1 ++ cs2) (new1 ++ new2) s2.
Proof.
  intros H1 H2. induction H1 as [| | |s x y cs n1 sa n2 sb Hk Hg Ha IHa Hb IHb]; simpl.
  - done.
  - apply reveal_skip; auto.
  - apply reveal_leaf; auto.
  - rewrite <- app_assoc. eapply reveal_node; eauto.
Qed.

(** One call of the function is one step of the relation. *)
Lemma reveal_loop_all frames s x y s' :
  (∀ s x y s', reveal_cell clock frames s x y = Some s' →
               ∃ new, reveal_all clock s [(x, y)] new s') →
  ∀ offs,
  for_each offs (λ s '(dx, dy), reveal_cell clock frames s (x + dx) (y + dy)) s = Some s' →
  ∃ new, reveal_all clock s ((λ '(dx, dy), (x + dx, y + dy)) <$> offs) new s'.
Proof.
  intros IH offs. revert s. induction offs as [|[dx dy] offs IHo]; intros s Hs.
  - inversion Hs; subst. exists []. constructor.
  - rewrite for_each_cons in Hs.
    destruct (reveal_cell clock frames s (x + dx) (y + dy)) as [s1|] eqn:E1; [|done].
    simpl in Hs. destruct (IH _ _ _ _ E1) as [new1 H1].
    destruct (IHo _ Hs) as [new2 H2]. rewrite fmap_cons.
    exists (new1 ++ new2).
    by apply (reveal_all_app _ [(x + dx, y + dy)] _ _ _ _ _ H1).
Qed.

Lemma reveal_cell_S frames s x y :
  reveal_cell clock (S frames) s x y =
  if reveal_skips s x y then Some s else
  if cell 0 (grid s) x y =? 0
  then for_each offsets
         (λ s '(dx, dy), reveal_cell clock frames s (x + dx) (y + dy))
         (reveal_one clock s x y)
  else Some (reveal_one clock s x y).
Proof. cbn [reveal_cell]. by rewrite grid_reveal_one. Qed.

Lemma reveal_cell_all frames s x y s' :
  reveal_cell clock frames s x y = Some s' → ∃ new, reveal_all clock s [(x, y)] new s'.
Proof.
  revert s x y s'. induction frames as [|frames IH]; intros s x y s' H; [done|].
  rewrite reveal_cell_S in H. destruct (reveal_skips s x y) eqn:Hk.
  - inversion H; subst. exists []. apply reveal_skip; [done|constructor].
  -  destruct (cell 0 (grid s) x y =? 0) eqn:Hg.
    + apply Z.eqb_eq in Hg.
      destruct (reveal_loop_all frames _ x y s' IH offsets H) as [new Hn].
      exists ((x, y) :: new ++ []). eapply reveal_node; [done..|constructor].
    + apply Z.eqb_neq in Hg. inversion H; subst.
      exists [(x, y)]. apply reveal_leaf; [done..|constructor].
Qed.

(** *** What the calls leave alone, and what they mark *)

Lemma reveal_effect_fields s s' :
  s' = reveal_effect s s' →
  GRID_SIZE s' = GRID_SIZE s ∧ grid s' = grid s ∧ flagged s' = flagged s.
Proof. intros ->. by destruct s. Qed.

Lemma in_grid_effect s s' x y :
  s' = reveal_effect s s' → in_grid s' x y = in_grid s x y.
Proof. intros (Hn & _ & _)%reveal_effect_fields. unfold in_grid. by rewrite Hn. Qed.

Lemma board_ok_reveal_one s x y : board_ok s → board_ok (reveal_one clock s x y).
Proof.
  intros (Hg & Hr & Hf).
  destruct (reveal_effect_fields _ _ (reveal_one_effect s x y)) as (En & Eg & Ef).
  unfold board_ok. rewrite En, Eg, Ef, revealed_reveal_one.
  split_and!; [done| |done]. by apply shaped_set_cell.
Qed.

Lemma revealed_reveal_one_iff s x y a b :
  board_ok s → in_grid s x y = true → in_grid s a b = true →
  cell false (revealed (reveal_one clock s x y)) a b = true
  ↔ (a, b) = (x, y) ∨ cell false (revealed s) a b = true.
Proof.
  intros (_ & Hr & _) [Hx Hy]%in_grid_spec [Ha Hb]%in_grid_spec.
  rewrite revealed_reveal_one.
  rewrite (cell_set_cell (GRID_SIZE s)) by (done || lia).
  case_decide as E.
  - split; [|done]. intros _. left. congruence.
  - split; [by right|]. intros [E'|?]; [|done]. congruence.
Qed.

Lemma reveal_all_effect s cs new s' :
  reveal_all clock s cs new s' → s' = reveal_effect s s'.
Proof.
  induction 1 as [s| | |]; [apply reveal_effect_refl|done|..].
  - eapply reveal_effect_trans; [apply reveal_one_effect|done].
  - eapply reveal_effect_trans; [apply reveal_one_effect|].
    by eapply reveal_effect_trans.
Qed.

Lemma reveal_all_board_ok s cs new s' :
  reveal_all clock s cs new s' → board_ok s → board_ok s'.
Proof. induction 1; auto using board_ok_reveal_one. Qed.

(** A cell that is not skipped after some cells were marked was not
    skipped before. *)
Lemma eligible_earlier s s' c :
  s' = reveal_effect s s' →
  (in_grid s c.1 c.2 = true →
   cell false (revealed s) c.1 c.2 = true → cell false (revealed s') c.1 c.2 = true) →
  eligible s' c → eligible s c.
Proof.
  intros He Hmono. destruct c as [a b]. rewrite !eligible_spec. simpl in *.
  rewrite (in_grid_effect _ _ _ _ He).
  destruct (reveal_effect_fields _ _ He) as (_ & _ & ->).
  intros (? & Hr & ?). split_and!; [done| |done].
  destruct (cell false (revealed s) a b); [|done]. rewrite Hmono in Hr; done.
Qed.

(** The cells marked by the calls: a cell of the grid is revealed
    afterwards when it was before or is one of them; each of them was
    not skipped; none is marked twice. *)
Lemma reveal_all_marks s cs new s' :
  reveal_all clock s cs new s' → board_ok s →
  (∀ a b, in_grid s a b = true →
     cell false (revealed s') a b = true
     ↔ cell false (revealed s) a b = true ∨ (a, b) ∈ new)
  ∧ (∀ c, c ∈ new → eligible s c)
  ∧ NoDup new.
Proof.
  induction 1 as [s|s x y cs new s' Hk H IH|s x y cs new s' Hk Hg H IH
                 |s x y cs new1 s1 new2 s' Hk Hg H1 IH1 H2 IH2]; intros Hok.
  - split_and!; [|by intros c ?%elem_of_nil|constructor].
    intros a b _. rewrite elem_of_nil. tauto.
  - by apply IH.
  - pose proof (board_ok_reveal_one s x y Hok) as Hok1.
    destruct (IH Hok1) as (Hrev & Hel & Hnd).
    pose proof (reveal_one_effect s x y) as He.
    assert (Hxy : in_grid s x y = true) by (by apply eligible_spec in Hk as (? & _)).
    assert (Hel' : ∀ c, c ∈ new → eligible s c ∧ c ≠ (x, y)).
    { intros [a b] Hc. pose proof (Hel _ Hc) as Hc1. split.
      - eapply eligible_earlier; [exact He| |exact Hc1]. simpl. intros _ Hr.
        apply eligible_spec in Hc1 as (Hin & _). rewrite (in_grid_effect _ _ _ _ He) in Hin.
        apply revealed_reveal_one_iff; auto.
      - intros [= -> ->]. apply eligible_spec in Hc1 as (_ & Hr & _).
        rewrite revealed_reveal_one, (cell_set_cell_eq (GRID_SIZE s)) in Hr;
          [done|apply Hok|apply in_grid_spec in Hxy; lia..]. }
    split_and!.
    + intros a b Hab. rewrite Hrev by (by rewrite (in_grid_effect _ _ _ _ He)).
      rewrite revealed_reveal_one_iff by done. rewrite elem_of_cons. tauto.
    + intros c [->|Hc]%elem_of_cons; [done|]. by apply Hel'.
    + apply NoDup_cons. split; [|done]. intros Hc. by apply Hel' in Hc as [_ ?].
  - pose proof (board_ok_reveal_one s x y Hok) as Hok1.
    destruct (IH1 Hok1) as (Hrev1 & Hel1 & Hnd1).
    pose proof (reveal_all_board_ok _ _ _ _ H1 Hok1) as Hoks1.
    destruct (IH2 Hoks1) as (Hrev2 & Hel2 & Hnd2).
    pose proof (reveal_one_effect s x y) as He.
    pose proof (reveal_all_effect _ _ _ _ H1) as He1.
    assert (Hxy : in_grid s x y = true) by (by apply eligible_spec in Hk as (? & _)).
    assert (Hin1 : ∀ a b, in_grid s1 a b = in_grid s a b).
    { intros a b. by rewrite (in_grid_effect _ _ _ _ He1), (in_grid_effect _ _ _ _ He). }
    assert (Hela : ∀ c, c ∈ new1 → eligible s c ∧ c ≠ (x, y)).
    { intros [a b] Hc. pose proof (Hel1 _ Hc) as Hc1. split.
      - eapply eligible_earlier; [exact He| |exact Hc1]. simpl. intros _ Hr.
        apply eligible_spec in Hc1 as (Hin & _). rewrite (in_grid_effect _ _ _ _ He) in Hin.
        apply revealed_reveal_one_iff; auto.
      - intros [= -> ->]. apply eligible_spec in Hc1 as (_ & Hr & _).
        rewrite revealed_reveal_one, (cell_set_cell_eq (GRID_SIZE s)) in Hr;
          [done|apply Hok|apply in_grid_spec in Hxy; lia..]. }
    assert (Helb : ∀ c, c ∈ new2 → eligible s c ∧ c ≠ (x, y) ∧ c ∉ new1).
    { intros [a b] Hc. pose proof (Hel2 _ Hc) as Hc1.
      pose proof Hc1 as (Hin & Hr & _)%eligible_spec. rewrite Hin1 in Hin.
      assert (Hr1 : cell false (revealed (reveal_one clock s x y)) a b ≠ true
                    ∧ (a, b) ∉ new1).
      { split; intros Hcontra;
          (assert (cell false (revealed s1) a b = true) as Hr';
           [apply Hrev1; [by rewrite (in_grid_effect _ _ _ _ He)|tauto]|congruence]). }
      destruct Hr1 as [Hr1 Hn1]. rewrite revealed_reveal_one_iff in Hr1 by done.
      split_and!; [|intros E; apply Hr1; by left|done].
      apply eligible_spec. apply eligible_spec in Hc1 as (_ & _ & Hf).
      destruct (reveal_effect_fields _ _ He1) as (_ & _ & Ef1).
      destruct (reveal_effect_fields _ _ He) as (_ & _ & Ef).
      rewrite Ef1, Ef in Hf. split_and!; [done| |done].
      destruct (cell false (revealed s) a b); [|done]. exfalso. apply Hr1. by right. }
    split_and!.
    + intros a b Hab. rewrite Hrev2 by (by rewrite Hin1).
      rewrite Hrev1 by (by rewrite (in_grid_effect _ _ _ _ He)).
      rewrite revealed_reveal_one_iff by done.
      rewrite elem_of_cons, elem_of_app. tauto.
    + intros c [->|[Hc|Hc]%elem_of_app]%elem_of_cons; [done|by apply Hela|by apply Helb].
    + apply NoDup_cons. split.
      * intros [Hc|Hc]%elem_of_app; [by apply Hela in Hc as [_ ?]|].
        by apply Helb in Hc as (_ & ? & _).
      * apply NoDup_app. split_and!; [done| |done].
        intros c Hc1 Hc2. by apply Helb in Hc2 as (_ & _ & ?).
Qed.

(** *** The revealed cells only grow, and the unrevealed ones are counted *)

Lemma reveal_all_grows s cs new s' :
  reveal_all clock s cs new s' → board_ok s → grows s s'.
Proof.
  intros H Hok a b Hab Hr.
  destruct (reveal_all_marks _ _ _ _ H Hok) as (Hrev & _). apply Hrev; auto.
Qed.

(** The unrevealed cells before are the marked cells and the
    unrevealed cells after. *)
Lemma unrevealed_split s s' new :
  s' = reveal_effect s s' →
  (∀ a b, in_grid s a b = true →
     cell false (revealed s') a b = true
     ↔ cell false (revealed s) a b = true ∨ (a, b) ∈ new) →
  (∀ c, c ∈ new → eligible s c) → NoDup new →
  unrevealed s ≡ₚ new ++ unrevealed s'.
Proof.
  intros He Hrev Hel Hnd. apply NoDup_Permutation.
  - apply NoDup_unrevealed.
  - apply NoDup_app. split_and!; [done| |apply NoDup_unrevealed].
    intros [a b] Hc (Hin & Hr)%elem_of_unrevealed.
    rewrite (in_grid_effect _ _ _ _ He) in Hin.
    assert (cell false (revealed s') a b = true) by (apply Hrev; auto). congruence.
  - intros [a b]. rewrite elem_of_app, !elem_of_unrevealed.
    rewrite (in_grid_effect _ _ _ _ He). split.
    + intros (Hin & Hr). destruct (decide ((a, b) ∈ new)) as [|Hn]; [by left|right].
      split; [done|]. destruct (cell false (revealed s') a b) eqn:E; [|done].
      apply Hrev in E as [E|E]; [congruence|done|done].
    + intros [Hc|(Hin & Hr)].
      * apply Hel, eligible_spec in Hc. tauto.
      * split; [done|]. destruct (cell false (revealed s) a b) eqn:E; [|done].
        assert (cell false (revealed s') a b = true) by (apply Hrev; auto). congruence.
Qed.

Lemma reveal_all_count s cs new s' :
  reveal_all clock s cs new s' → board_ok s →
  length (unrevealed s) = (length new + length (unrevealed s'))%nat.
Proof.
  intros H Hok. destruct (reveal_all_marks _ _ _ _ H Hok) as (Hrev & Hel & Hnd).
  rewrite (unrevealed_split s s' new); [by rewrite length_app| |done..].
  by eapply reveal_all_effect.
Qed.

Lemma reveal_one_count s x y :
  board_ok s → eligible s (x, y) →
  length (unrevealed s) = S (length (unrevealed (reveal_one clock s x y))).
Proof.
  intros Hok Hel.
  assert (Hxy : in_grid s x y = true) by (by apply eligible_spec in Hel as (? & _)).
  rewrite (unrevealed_split s (reveal_one clock s x y) [(x, y)]); [done|..].
  - apply reveal_one_effect.
  - intros a b Hab. rewrite revealed_reveal_one_iff, list_elem_of_singleton by done. tauto.
  - by intros c ->%list_elem_of_singleton.
  - apply NoDup_singleton.
Qed.

(** *** Termination *)

Lemma reveal_loop_terminates frames x y :
  (∀ s x y, board_ok s → (length (unrevealed s) < frames)%nat →
            is_Some (reveal_cell clock frames s x y)) →
  ∀ offs s, board_ok s → (length (unrevealed s) < frames)%nat →
  is_Some (for_each offs
             (λ s '(dx, dy), reveal_cell clock frames s (x + dx) (y + dy)) s).
Proof.
  intros IH offs. induction offs as [|[dx dy] offs IHo]; intros s Hok Hlen; [done|].
  rewrite for_each_cons.
  destruct (IH s (x + dx) (y + dy) Hok Hlen) as [s1 E1]. rewrite E1. simpl.
  destruct (reveal_cell_all _ _ _ _ _ E1) as [new H1].
  apply IHo; [by eapply reveal_all_board_ok|].
  rewrite (reveal_all_count _ _ _ _ H1 Hok) in Hlen. lia.
Qed.

(** A call returns when more frames are left than cells are
    unrevealed. *)
Lemma reveal_cell_terminates frames s x y :
  board_ok s → (length (unrevealed s) < frames)%nat →
  is_Some (reveal_cell clock frames s x y).
Proof.
  revert s x y. induction frames as [|frames IH]; intros s x y Hok Hlen; [lia|].
  rewrite reveal_cell_S. destruct (reveal_skips s x y) eqn:Hk; [done|].
  destruct (cell 0 (grid s) x y =? 0); [|done].
  apply reveal_loop_terminates; [done|by apply board_ok_reveal_one|].
  rewrite (reveal_one_count s x y Hok Hk) in Hlen. lia.
Qed.

(** *** The log of the marked cells and the clock *)

Lemma reveal_all_log s cs new s' :
  reveal_all clock s cs new s' → reveal_log s' = reveal_log s ++ new.
Proof.
  induction 1 as [s|s x y cs new s' Hk H IH|s x y cs new s' Hk Hg H IH
                 |s x y cs new1 s1 new2 s' Hk Hg H1 IH1 H2 IH2].
  - by rewrite app_nil_r.
  - done.
  - by rewrite IH, reveal_log_reveal_one, <- app_assoc.
  - by rewrite IH2, IH1, reveal_log_reveal_one, <- !app_assoc.
Qed.

Lemma reveal_all_time_reads s cs new s' :
  reveal_all clock s cs new s' → time_reads s' = (time_reads s + 2 * length new)%nat.
Proof.
  induction 1 as [s|s x y cs new s' Hk H IH|s x y cs new s' Hk Hg H IH
                 |s x y cs new1 s1 new2 s' Hk Hg H1 IH1 H2 IH2].
  - simpl. lia.
  - done.
  - rewrite IH, time_reads_reveal_one. simpl. lia.
  - rewrite IH2, IH1, time_reads_reveal_one. simpl. rewrite length_app. lia.
Qed.

(** *** The marked cells are the region of the flood fill *)

Lemma region_earlier s s' c0 c :
  s' = reveal_effect s s' → grows s s' → region s' c0 c → region s c0 c.
Proof.
  intros He Hg. induction 1 as [Hs|c c' Hr IH Hz Hn Hc].
  - apply region_start. eapply eligible_earlier; [done| |done]. apply Hg.
  - eapply region_step; [done| |done|].
    + destruct (reveal_effect_fields _ _ He) as (_ & <- & _). done.
    + eapply eligible_earlier; [done| |done]. apply Hg.
Qed.

Lemma region_prepend s a c0 c :
  eligible s a → cell 0 (grid s) a.1 a.2 = 0 → c0 ∈ neighbours a.1 a.2 →
  region s c0 c → region s a c.
Proof.
  intros Ha Hz Hn. induction 1 as [Hs|c c' Hr IH Hz' Hn' Hc].
  - eapply region_step; [by apply region_start|done..].
  - eapply region_step; done.
Qed.

Lemma grows_reveal_one s x y :
  board_ok s → in_grid s x y = true → grows s (reveal_one clock s x y).
Proof. intros Hok Hxy a b Hab Hr. apply revealed_reveal_one_iff; auto. Qed.

Lemma grows_trans s1 s2 s3 :
  s2 = reveal_effect s1 s2 → grows s1 s2 → grows s2 s3 → grows s1 s3.
Proof.
  intros He H12 H23 a b Hab Hr. apply H23; [|by apply H12].
  by rewrite (in_grid_effect _ _ _ _ He).
Qed.

(** Every marked cell is reached from one of the cells called on. *)
Lemma reveal_all_region s cs new s' :
  reveal_all clock s cs new s' → board_ok s →
  ∀ c, c ∈ new → ∃ c0, c0 ∈ cs ∧ region s c0 c.
Proof.
  induction 1 as [s|s x y cs new s' Hk H IH|s x y cs new s' Hk Hg H IH
                 |s x y cs new1 s1 new2 s' Hk Hg H1 IH1 H2 IH2]; intros Hok c Hc.
  - by apply elem_of_nil in Hc.
  - destruct (IH Hok c Hc) as (c0 & H0 & Hr). exists c0. split; [by right|done].
  - assert (Hxy : in_grid s x y = true) by (by apply eligible_spec in Hk as (? & _)).
    apply elem_of_cons in Hc as [->|Hc].
    + exists (x, y). split; [by left|by apply region_start].
    + destruct (IH (board_ok_reveal_one _ _ _ Hok) c Hc) as (c0 & H0 & Hr).
      exists c0. split; [by right|].
      eapply region_earlier; [apply reveal_one_effect|by apply grows_reveal_one|done].
  - assert (Hxy : in_grid s x y = true) by (by apply eligible_spec in Hk as (? & _)).
    pose proof (board_ok_reveal_one s x y Hok) as Hok1.
    apply elem_of_cons in Hc as [->|[Hc|Hc]%elem_of_app].
    + exists (x, y). split; [by left|by apply region_start].
    + destruct (IH1 Hok1 c Hc) as (c0 & H0 & Hr).
      exists (x, y). split; [by left|].
      apply (region_prepend s (x, y) c0); [done..|].
      eapply region_earlier; [apply reveal_one_effect|by apply grows_reveal_one|done].
    + destruct (IH2 (reveal_all_board_ok _ _ _ _ H1 Hok1) c Hc) as (c0 & H0 & Hr).
      exists c0. split; [by right|].
      eapply region_earlier; [apply reveal_one_effect|by apply grows_reveal_one|].
      eapply region_earlier; [by eapply reveal_all_effect|by eapply reveal_all_grows|done].
Qed.

Lemma not_eligible_later s s' c :
  s' = reveal_effect s s' → grows s s' → ¬ eligible s c → ¬ eligible s' c.
Proof.
  intros He Hg Hn Hc. apply Hn. eapply eligible_earlier; [done| |done]. apply Hg.
Qed.

Lemma not_eligible_reveal_one s x y :
  board_ok s → in_grid s x y = true → ¬ eligible (reveal_one clock s x y) (x, y).
Proof.
  intros Hok Hxy (_ & Hr & _)%eligible_spec.
  rewrite revealed_reveal_one, (cell_set_cell_eq (GRID_SIZE s)) in Hr;
    [done|apply Hok|apply in_grid_spec in Hxy; lia..].
Qed.

(** After the calls, every cell called on is skipped, and so is every
    cell around a marked cell of count 0. *)
Lemma reveal_all_closed s cs new s' :
  reveal_all clock s cs new s' → board_ok s →
  (∀ c, c ∈ cs → ¬ eligible s' c)
  ∧ (∀ c, c ∈ new → cell 0 (grid s) c.1 c.2 = 0 →
          ∀ c', c' ∈ neighbours c.1 c.2 → ¬ eligible s' c').
Proof.
  induction 1 as [s|s x y cs new s' Hk H IH|s x y cs new s' Hk Hg H IH
                 |s x y cs new1 s1 new2 s' Hk Hg H1 IH1 H2 IH2]; intros Hok.
  - split; intros c Hc; by apply elem_of_nil in Hc.
  - destruct (IH Hok) as (Hcs & Hnew). split; [|done].
    intros c [->|Hc]%elem_of_cons; [|by apply Hcs].
    eapply not_eligible_later;
      [by eapply reveal_all_effect|by eapply reveal_all_grows|].
    unfold eligible. simpl. congruence.
  - assert (Hxy : in_grid s x y = true) by (by apply eligible_spec in Hk as (? & _)).
    pose proof (board_ok_reveal_one s x y Hok) as Hok1.
    destruct (IH Hok1) as (Hcs & Hnew). rewrite grid_reveal_one in Hnew. split.
    + intros c [->|Hc]%elem_of_cons; [|by apply Hcs].
      eapply not_eligible_later;
        [by eapply reveal_all_effect|by eapply reveal_all_grows|].
      by apply not_eligible_reveal_one.
    + intros c [->|Hc]%elem_of_cons; [done|by apply Hnew].
  - assert (Hxy : in_grid s x y = true) by (by apply eligible_spec in Hk as (? & _)).
    pose proof (board_ok_reveal_one s x y Hok) as Hok1.
    pose proof (reveal_all_board_ok _ _ _ _ H1 Hok1) as Hoks1.
    destruct (IH1 Hok1) as (Hcs1 & Hnew1). rewrite grid_reveal_one in Hnew1.
    destruct (IH2 Hoks1) as (Hcs2 & Hnew2).
    destruct (reveal_effect_fields _ _ (reveal_all_effect _ _ _ _ H1)) as (_ & Eg1 & _).
    rewrite Eg1, grid_reveal_one in Hnew2.
    assert (Hlater : ∀ c, ¬ eligible s1 c → ¬ eligible s' c).
    { intros c. eapply not_eligible_later;
        [by eapply reveal_all_effect|by eapply reveal_all_grows]. }
    split.
    + intros c [->|Hc]%elem_of_cons; [|by apply Hcs2].
      apply Hlater. eapply not_eligible_later;
        [by eapply reveal_all_effect|by eapply reveal_all_grows|].
      by apply not_eligible_reveal_one.
    + intros c [->|[Hc|Hc]%elem_of_app]%elem_of_cons Hz c' Hc'.
      * by apply Hlater, Hcs1.
      * by eapply Hlater, Hnew1.
      * by eapply Hnew2.
Qed.

(** A cell that was not skipped before and is skipped after has been
    marked in between. *)
Lemma eligible_marked s cs new s' c :
  reveal_all clock s cs new s' → board_ok s → eligible s c → ¬ eligible s' c → c ∈ new.
Proof.
  intros H Hok Hc Hn. destruct c as [a b].
  destruct (reveal_all_marks _ _ _ _ H Hok) as (Hrev & _).
  pose proof (reveal_all_effect _ _ _ _ H) as He.
  pose proof Hc as (Hin & Hr & Hf)%eligible_spec.
  destruct (cell false (revealed s') a b) eqn:E.
  - apply Hrev in E as [E|E]; [congruence|done|done].
  - exfalso. apply Hn, eligible_spec. rewrite (in_grid_effect _ _ _ _ He).
    destruct (reveal_effect_fields _ _ He) as (_ & _ & ->). done.
Qed.

(** Every cell of the region is marked. *)
Lemma region_marked s x y new s' c :
  reveal_all clock s [(x, y)] new s' → board_ok s → region s (x, y) c → c ∈ new.
Proof.
  intros H Hok. destruct (reveal_all_closed _ _ _ _ H Hok) as (Hcs & Hnew).
  induction 1 as [Hs|c c' Hr IH Hz Hn Hc].
  - eapply eligible_marked; [done..|]. apply Hcs. by left.
  - eapply eligible_marked; [done..|]. by eapply Hnew.
Qed.
End Reveal.

(** C5.  On a board of at most 20x20 cells, [reveal_cell] called with
    more than 400 stack frames left returns, whatever the cell.  The
    cells it marks revealed are those of the region of the flood fill:
    the cell itself unless it is out of the grid, flagged or already
    revealed, and every such cell next to a reached cell of count 0.
    Each is marked once (the log of marked cells grows by a list without
    repetition), and nothing but the revealed cells, the combo counters,
    the animations and the clock changes. *)
Theorem reveal_cell_flood_fill (clock : Clock) (frames : nat) (s : Minesweeper) (x y : Z) :
  board_ok s → GRID_SIZE s ≤ 20 → (400 < frames)%nat →
  ∃ s' new,
    reveal_cell clock frames s x y = Some s'
    ∧ s' = reveal_effect s s'
    ∧ reveal_log s' = reveal_log s ++ new
    ∧ NoDup new
    ∧ (∀ c, c ∈ new ↔ region s (x, y) c)
    ∧ (∀ a b, in_grid s a b = true →
         cell false (revealed s') a b = true
         ↔ cell false (revealed s) a b = true ∨ (a, b) ∈ new).
Proof.
  intros Hok Hn Hf.
  destruct (reveal_cell_terminates clock frames s x y Hok) as [s' Hs'].
  { pose proof (length_unrevealed s). nia. }
  destruct (reveal_cell_all _ _ _ _ _ _ Hs') as [new H].
  destruct (reveal_all_marks _ _ _ _ _ H Hok) as (Hrev & Hel & Hnd).
  exists s', new. split_and!; [done| | |done| |done].
  - by eapply reveal_all_effect.
  - by eapply reveal_all_log.
  - intros c. split.
    + intros Hc. destruct (reveal_all_region _ _ _ _ _ H Hok c Hc) as (c0 & H0 & Hr).
      by apply list_elem_of_singleton in H0 as ->.
    + by eapply region_marked.
Qed.

(** ** The combo counter under the flood fill *)

Section Combo.
Variable clock : Clock.

Lemma combo_reveal_one s x y :
  combo (reveal_one clock s x y) = combo (combo_update (clock (time_reads s)) s)
  ∧ max_combo (reveal_one clock s x y)
    = max_combo (combo_update (clock (time_reads s)) s)
  ∧ last_reveal_time (reveal_one clock s x y) = clock (time_reads s).
Proof. unfold reveal_one, combo_update. simpl. by case_match. Qed.

Lemma combo_update_fast t s :
  PrimFloat.ltb (PrimFloat.sub t (last_reveal_time s)) 1%float = true →
  combo (combo_update t s) = combo s + 1
  ∧ max_combo (combo_update t s) = Z.max (max_combo s) (combo s + 1).
Proof. intros H. unfold combo_update. by rewrite H. Qed.

(** Cells marked less than a second after one another add one each to
    the combo, and the best combo follows. *)
Lemma reveal_all_paced n0 m s cs new s' :
  reveal_all clock s cs new s' →
  time_reads s = (2 * S m + n0)%nat → last_reveal_time s = clock (2 * m + n0)%nat →
  (∀ j, (m ≤ j < m + length new)%nat →
        PrimFloat.ltb (PrimFloat.sub (clock (2 * S j + n0)%nat) (clock (2 * j + n0)%nat))
          1%float = true) →
  combo s' = combo s + Z.of_nat (length new)
  ∧ max_combo s' = match new with
                   | [] => max_combo s
                   | _ :: _ => Z.max (max_combo s) (combo s')
                   end
  ∧ last_reveal_time s' = clock (2 * (m + length new) + n0)%nat.
Proof.
  intros H. revert m.
  induction H as [s|s x y cs new s' Hk H IH|s x y cs new s' Hk Hg H IH
                 |s x y cs new1 s1 new2 s' Hk Hg H1 IH1 H2 IH2]; intros m Htr Hl Hp.
  - split_and!; [simpl; lia|done|]. rewrite Hl. f_equal. simpl. lia.
  - by apply IH.
  - destruct (combo_reveal_one s x y) as (Ec & Em & El).
    destruct (combo_update_fast (clock (time_reads s)) s) as (Ec' & Em').
    { rewrite Htr, Hl. apply Hp. simpl. lia. }
    destruct (IH (S m)) as (Hc & Hm & Hl').
    { rewrite time_reads_reveal_one, Htr. lia. }
    { by rewrite El, Htr. }
    { intros j Hj. apply Hp. simpl. lia. }
    rewrite Ec, Ec' in Hc. rewrite Em, Em' in Hm.
    split_and!; [rewrite Hc; simpl length; lia| |].
    + rewrite Hm. destruct new; simpl in *; lia.
    + rewrite Hl'. f_equal. simpl. lia.
  - destruct (combo_reveal_one s x y) as (Ec & Em & El).
    destruct (combo_update_fast (clock (time_reads s)) s) as (Ec' & Em').
    { rewrite Htr, Hl. apply Hp. simpl. lia. }
    destruct (IH1 (S m)) as (Hc1 & Hm1 & Hl1).
    { rewrite time_reads_reveal_one, Htr. lia. }
    { by rewrite El, Htr. }
    { intros j Hj. apply Hp. simpl. rewrite length_app. lia. }
    destruct (IH2 (S m + length new1)%nat) as (Hc2 & Hm2 & Hl2).
    { rewrite (reveal_all_time_reads _ _ _ _ _ H1), time_reads_reveal_one, Htr. lia. }
    { rewrite Hl1. f_equal. }
    { intros j Hj. apply Hp. simpl. rewrite length_app. lia. }
    rewrite Ec, Ec' in Hc1. rewrite Em, Em' in Hm1.
    split_and!; [rewrite Hc2, Hc1; simpl length; rewrite length_app; lia| |].
    + rewrite Hm2. destruct new2, new1; simpl in *; rewrite ?length_app in *; lia.
    + rewrite Hl2. f_equal. simpl. rewrite length_app. lia.
Qed.
End Combo.

(** ** Fresh boards *)

Lemma board_ok_reset_game s : board_ok (reset_game s).
Proof. unfold board_ok, reset_game. simpl. split_and!; apply shaped_replicate. Qed.

(** ** Example games *)

Example easy_mined_grid :
  grid easy_mined =
  [[0; 0; 0; 0; 0; 0; 2; -1]; [0; 0; 0; 0; 0; 0; 3; -1];
   [0; 0; 0; 0; 0; 0; 3; -1]; [0; 0; 0; 0; 0; 0; 3; -1];
   [0; 0; 0; 0; 0; 1; 4; -1]; [0; 0; 0; 0; 0; 2; -1; -1];
   [0; 0; 0; 0; 0; 3; -1; -1]; [0; 0; 0; 0; 0; 2; -1; 3]].
Proof. reflexivity. Qed.

Lemma board_ok_easy_mined : board_ok easy_mined.
Proof. unfold board_ok, shaped. vm_compute. repeat split; repeat constructor. Qed.

Lemma reveal_cell_flood_fill_witness :
  ∃ s' new,
    reveal_cell still_clock frames_left easy_mined 0 0 = Some s'
    ∧ s' = reveal_effect easy_mined s'
    ∧ reveal_log s' = reveal_log easy_mined ++ new
    ∧ NoDup new
    ∧ (∀ c, c ∈ new ↔ region easy_mined (0, 0) c)
    ∧ (∀ a b, in_grid easy_mined a b = true →
         cell false (revealed s') a b = true
         ↔ cell false (revealed easy_mined) a b = true ∨ (a, b) ∈ new).
Proof.
  apply (reveal_cell_flood_fill still_clock frames_left easy_mined 0 0).
  - apply board_ok_easy_mined.
  - vm_compute. discriminate.
  - vm_compute. lia.
Defined.

(** The same call, run: the 53 cells that are neither mines nor the
    corner (7, 7) behind them are marked. *)
Example easy_flood_fill_run :
  (λ s', (length (reveal_log s'), length (unrevealed s')))
    <$> reveal_cell still_clock frames_left easy_mined 0 0
  = Some (53%nat, 11%nat).
Proof. vm_compute. reflexivity. Qed.

(** ** C10: a flood fill feeds the combo counter cell by cell *)

Lemma max_combo_unlock_achievement clock k s :
  max_combo (unlock_achievement clock k s) = max_combo s.
Proof. unfold unlock_achievement. by case_match. Qed.

Lemma unlocked_unlock_achievement clock k s :
  Achievement.unlocked (achievements (unlock_achievement clock k s) k) = true.
Proof.
  unfold unlock_achievement. destruct (Achievement.unlocked (achievements s k)) eqn:E; [done|].
  simpl. rewrite fn_lookup_insert. unfold Achievement.unlock. simpl. by rewrite E.
Qed.

(** [check_achievements] unlocks the combo achievement at a best combo
    of 10, won or not. *)
Lemma check_achievements_combo_master clock s :
  10 ≤ max_combo s →
  Achievement.unlocked (achievements (check_achievements clock s) combo_master) = true.
Proof.
  intros H. unfold check_achievements.
  match goal with |- context [if 10 <=? max_combo ?s1 then _ else _] =>
    assert (Hm : max_combo s1 = max_combo s) end.
  { destruct (win s); [|done].
    repeat (case_match; rewrite ?max_combo_unlock_achievement); done. }
  rewrite Hm. destruct (Z.leb_spec 10 (max_combo s)); [|lia].
  apply unlocked_unlock_achievement.
Qed.

(** C10.  One call of [reveal_cell] with more frames than unrevealed
    cells returns, and the cells it marks are those of the region of
    the flood fill, each once; it reads the clock twice for each.  When
    each of these cells but the first reads a time less than a second
    after the cell before it, the first applies the combo update
    against the previous reveal and every other one adds one to
    [combo], with [max_combo] following.  So a call that marks k cells
    within a second of the previous reveal adds k to the combo; from a
    combo of 0 it leaves the combo at k, and the best combo too when k
    is 2 or more; and [check_achievements] unlocks the combo
    achievement as soon as the best combo is 10. *)
Theorem flood_fill_combo (clock : Clock) (frames : nat) (s : Minesweeper) (x y : Z) :
  board_ok s → (length (unrevealed s) < frames)%nat →
  ∃ s' new,
    reveal_cell clock frames s x y = Some s'
    ∧ NoDup new
    ∧ (∀ c, c ∈ new ↔ region s (x, y) c)
    ∧ (∀ a b, in_grid s a b = true →
         cell false (revealed s') a b = true
         ↔ cell false (revealed s) a b = true ∨ (a, b) ∈ new)
    ∧ time_reads s' = (time_reads s + 2 * length new)%nat
    ∧ (paced clock s (length new) →
       match new with
       | [] => combo s' = combo s ∧ max_combo s' = max_combo s
       | _ :: auto =>
           combo s' = combo (combo_update (reveal_stamp clock s 0) s) + Z.of_nat (length auto)
           ∧ max_combo s' = match auto with
                            | [] => max_combo (combo_update (reveal_stamp clock s 0) s)
                            | _ :: _ => Z.max (max_combo s) (combo s')
                            end
           ∧ last_reveal_time s' = reveal_stamp clock s (length auto)
       end
       ∧ (PrimFloat.ltb (PrimFloat.sub (reveal_stamp clock s 0) (last_reveal_time s)) 1%float
          = true →
          combo s' = combo s + Z.of_nat (length new)
          ∧ (new ≠ [] → max_combo s' = Z.max (max_combo s) (combo s')))
       ∧ (combo s = 0 → max_combo s = 0 →
          combo s' = Z.of_nat (length new)
          ∧ ((2 ≤ length new)%nat → max_combo s' = Z.of_nat (length new))))
    ∧ (10 ≤ max_combo s' →
       Achievement.unlocked (achievements (check_achievements clock s') combo_master) = true).
Proof.
  intros Hok Hf.
  destruct (reveal_cell_terminates clock frames s x y Hok Hf) as [s' Hs'].
  destruct (reveal_cell_all _ _ _ _ _ _ Hs') as [new H].
  destruct (reveal_all_marks _ _ _ _ _ H Hok) as (Hrev & Hel & Hnd).
  exists s', new. split; [done|]. split; [done|]. split.
  { intros c. split.
    - intros Hc. destruct (reveal_all_region _ _ _ _ _ H Hok c Hc) as (c0 & H0 & Hr).
      by apply list_elem_of_singleton in H0 as ->.
    - by eapply region_marked. }
  split; [done|]. split; [by eapply reveal_all_time_reads|].
  split; [|apply check_achievements_combo_master].
  intros Hp.
  assert (Hmain : match new with
      | [] => combo s' = combo s ∧ max_combo s' = max_combo s
      | _ :: auto =>
          combo s' = combo (combo_update (reveal_stamp clock s 0) s) + Z.of_nat (length auto)
          ∧ max_combo s' = match auto with
                           | [] => max_combo (combo_update (reveal_stamp clock s 0) s)
                           | _ :: _ => Z.max (max_combo s) (combo s')
                           end
          ∧ last_reveal_time s' = reveal_stamp clock s (length auto)
      end).
  { destruct (combo_reveal_one clock s x y) as (Ec & Em & El).
    change (reveal_stamp clock s 0) with (clock (time_reads s)).
    assert (Hm1 : max_combo s ≤ max_combo (combo_update (clock (time_reads s)) s)
                  ∧ (max_combo (combo_update (clock (time_reads s)) s)
                     ≤ Z.max (max_combo s) (combo (combo_update (clock (time_reads s)) s)))).
    { unfold combo_update. destruct (PrimFloat.ltb _ _); simpl; lia. }
    inversion H as [|? ? ? ? ? ? Hk Hr|? ? ? ? ? ? Hk Hg Hr|? ? ? ? ? ? ? ? Hk Hg Hr1 Hr2]; subst.
    - by inversion Hr; subst.
    - inversion Hr; subst. rewrite Ec, Em, El. simpl length. split; [lia|done].
    - inversion Hr2; subst. rewrite app_nil_r in *.
      destruct (reveal_all_paced clock (time_reads s) 0 _ _ _ _ Hr1) as (Hc & Hm & Hl).
      { rewrite time_reads_reveal_one. lia. }
      { by rewrite El. }
      { intros j Hj. apply (Hp j). simpl in *. lia. }
      rewrite Ec in Hc. rewrite Em in Hm. split; [done|]. split; [|by rewrite Hl].
      rewrite Hm. destruct new1; [done|]. simpl length in *. lia. }
  split; [done|]. split.
  - intros Hw. change (reveal_stamp clock s 0) with (clock (time_reads s)) in *.
    destruct (combo_update_fast _ _ Hw) as (Ec & Em).
    destruct new as [|c auto]; [split; [simpl; lia|done]|].
    destruct Hmain as (Hc & Hm & _). rewrite Ec in Hc. rewrite Em in Hm.
    split; [simpl length; lia|]. intros _. destruct auto; [|done].
    rewrite Hm. simpl in Hc. lia.
  - intros Hc0 Hm0. destruct new as [|c auto]; [simpl; lia|].
    destruct Hmain as (Hc & Hm & _).
    assert (Hc1 : combo (combo_update (reveal_stamp clock s 0) s) = 1).
    { unfold combo_update. destruct (PrimFloat.ltb _ _); simpl; lia. }
    rewrite Hc1 in Hc. simpl length. split; [lia|]. intros Hlen.
    rewrite Hm. destruct auto; simpl in *; lia.
Qed.

(** The first click of the easy game under a clock that advances by a
    quarter of a second at every call: the 53 cells are marked over 26
    seconds, half a second apart. *)
Example ticking_flood_fill_run :
  (λ s', (time_reads s', combo s', max_combo s'))
    <$> reveal_cell ticking_clock frames_left easy_mined 0 0
  = Some (106%nat, 53, 53).
Proof. vm_compute. reflexivity. Qed.

(** Successive cells of that call read times half a second apart. *)
Lemma paced_ticking_clock : paced ticking_clock easy_mined 53.
Proof.
  intros j Hj.
  do 52 (destruct j as [|j]; [vm_compute; reflexivity|]). lia.
Qed.

Lemma flood_fill_combo_witness :
  ∃ s' new,
    reveal_cell ticking_clock frames_left easy_mined 0 0 = Some s'
    ∧ (∀ c, c ∈ new ↔ region easy_mined (0, 0) c)
    ∧ length new = 53%nat
    ∧ combo s' = 53 ∧ max_combo s' = 53
    ∧ Achievement.unlocked (achievements (check_achievements ticking_clock s') combo_master)
      = true.
Proof.
  destruct (flood_fill_combo ticking_clock frames_left easy_mined 0 0)
    as (s' & new & Hs' & Hnd & Hreg & Hrev & Htr & Hc & Ha).
  - apply board_ok_easy_mined.
  - vm_compute. lia.
  - pose proof ticking_flood_fill_run as E. rewrite Hs' in E.
    injection E as Et _ _.
    assert (Hlen : length new = 53%nat).
    { rewrite Htr in Et. change (time_reads easy_mined) with 0%nat in Et. lia. }
    rewrite Hlen in Hc. destruct (Hc paced_ticking_clock) as (_ & _ & H0).
    destruct H0 as [Hcombo Hmax]; [reflexivity..|].
    specialize (Hmax ltac:(lia)).
    exists s', new. split; [done|]. split; [done|]. split; [done|].
    split; [done|]. split; [done|]. apply Ha. lia.
Defined.

(** The first click of that game, run: 53 cells are marked, the combo
    and the best combo go from 0 to 53, and the achievement is
    unlocked in the same turn. *)
Example first_click_combo_run :
  (λ s', (combo s', max_combo s', Achievement.unlocked (achievements s' combo_master)))
    <$> run_iteration still_clock easy_game
          [MOUSEBUTTONDOWN (5, 105) 1 no_keys (replicate 10 49%nat)]
  = Some (53, 53, true).
Proof. vm_compute. reflexivity. Qed.

(** ** C6: the combo counter over a sequence of reveals *)

(** On binary64 numbers [a <= b] excludes [b < a]: a gap of at least 1.0
    fails the test [gap < 1.0] of [reveal_cell]. *)
Lemma SFleb_not_SFltb (a b : spec_float) : SFleb a b = true → SFltb b a = false.
Proof.
  assert (Hp : ∀ p q, PosDef.Pos.compare_cont Eq q p
                      = CompOpp (PosDef.Pos.compare_cont Eq p q)).
  { intros p q. symmetry. apply (Pos.compare_cont_antisym p q Eq). }
  destruct a as [sa|sa| |sa ma ea], b as [sb|sb| |sb mb eb];
    unfold SFleb, SFltb, SFcompare;
    try (destruct sa); try (destruct sb); try done.
  - rewrite (Z.compare_antisym ea eb), (Hp ma mb).
    destruct (ea ?= eb); simpl; try done.
    by destruct (PosDef.Pos.compare_cont Eq ma mb).
  - rewrite (Z.compare_antisym ea eb), (Hp ma mb).
    destruct (ea ?= eb); simpl; try done.
    by destruct (PosDef.Pos.compare_cont Eq ma mb).
Qed.

Lemma float_ge_one_not_lt (g : float) :
  PrimFloat.leb 1%float g = true → PrimFloat.ltb g 1%float = false.
Proof.
  intros H. pose proof (leb_spec 1%float g) as H1. pose proof (ltb_spec g 1%float) as H2.
  rewrite H2. apply SFleb_not_SFltb. by rewrite <- H1.
Qed.

Lemma maximum_max d a l : maximum (Z.max d a) l = Z.max a (maximum d l).
Proof. unfold maximum. induction l as [|b l IH]; simpl; lia. Qed.

Lemma max_combo_reveals ts s :
  max_combo (reveals ts s) = maximum (max_combo s) (fast_combos ts s).
Proof.
  revert s. induction ts as [|t ts IH]; intros s; [done|].
  unfold reveals in *. simpl fold_left. rewrite IH. simpl fast_combos.
  unfold combo_update.
  destruct (PrimFloat.ltb (PrimFloat.sub t (last_reveal_time s)) 1%float); simpl.
  - rewrite maximum_max. unfold maximum. simpl. lia.
  - done.
Qed.

(** C6, as the code has it.  A reveal whose gap since the previous one
    is at least 1.0 sets [combo] to 1 and leaves [max_combo] as it is; a
    reveal whose gap is less than 1.0 adds one to [combo] and raises
    [max_combo] to it; either way the time of the reveal is recorded.
    Over any sequence of reveals [max_combo] is the running maximum of
    the combos reached by adding one: a combo of 1 that comes from a
    reset is not counted.  [reveal_cell] applies this update, at the
    time it reads, to every cell it marks. *)
Theorem combo_update_sequence (ts : list float) (s : Minesweeper) (t : float) :
  (PrimFloat.leb 1%float (PrimFloat.sub t (last_reveal_time s)) = true →
   combo (combo_update t s) = 1 ∧ max_combo (combo_update t s) = max_combo s)
  ∧ (PrimFloat.ltb (PrimFloat.sub t (last_reveal_time s)) 1%float = true →
     combo (combo_update t s) = combo s + 1
     ∧ max_combo (combo_update t s) = Z.max (max_combo s) (combo s + 1))
  ∧ last_reveal_time (combo_update t s) = t
  ∧ max_combo (reveals ts s) = maximum (max_combo s) (fast_combos ts s)
  ∧ (∀ clock x y,
       combo (reveal_one clock s x y) = combo (combo_update (clock (time_reads s)) s)
       ∧ max_combo (reveal_one clock s x y)
         = max_combo (combo_update (clock (time_reads s)) s)).
Proof.
  split_and!.
  - intros H%float_ge_one_not_lt. unfold combo_update. by rewrite H.
  - apply combo_update_fast.
  - unfold combo_update. by destruct (PrimFloat.ltb _ _).
  - apply max_combo_reveals.
  - intros clock x y. destruct (combo_reveal_one clock s x y) as (? & ? & _). done.
Qed.

(** Two reveals half a second apart make a combo of 2; a third one a
    second and a half later resets it to 1, and the best combo stays 2. *)
Example combo_three_reveals :
  let s := reveals [1700000000%float; 1700000000.5%float; 1700000002%float] fresh_game in
  combo_history [1700000000%float; 1700000000.5%float; 1700000002%float] fresh_game = [1; 2; 1]
  ∧ combo s = 1 ∧ max_combo s = 2.
Proof. vm_compute. done. Qed.

(** The claim as the specification states it fails on the first reveal
    of a game: on the mined easy board, revealing the cell (6, 0), of
    count 2, sets [combo] to 1 and leaves [max_combo] at 0, which is not
    the largest value [combo] has taken. *)
Lemma max_combo_not_running_maximum :
  ∃ s', reveal_cell still_clock frames_left easy_mined 6 0 = Some s'
        ∧ combo easy_mined = 0 ∧ combo s' = 1 ∧ max_combo s' = 0
        ∧ max_combo s' ≠ maximum (combo easy_mined) [combo s']
        ∧ max_combo (reveals [1700000000%float] fresh_game)
          ≠ maximum (combo fresh_game) (combo_history [1700000000%float] fresh_game).
Proof. eexists. vm_compute. split_and!; (reflexivity || discriminate). Qed.

(** ** C7: the outcomes of [chord_reveal] *)

Section Chord.
Variable clock : Clock.

Lemma chord_loop_cons frames s x y dx dy rest :
  chord_loop clock frames s x y ((dx, dy) :: rest) =
  if in_grid s (x + dx) (y + dy) && negb (cell false (flagged s) (x + dx) (y + dy))
     && negb (cell false (revealed s) (x + dx) (y + dy))
  then
    if cell 0 (grid s) (x + dx) (y + dy) =? -1 then Some (set_game_over true s)
    else
      s1 ← reveal_cell clock frames s (x + dx) (y + dy);
      chord_loop clock frames
        (set_animation
           (Animation.add_reveal (clock (time_reads s1)) (x + dx) (y + dy) anim_chord
              (animation s1))
           (set_time_reads (S (time_reads s1)) s1))
        x y rest
  else chord_loop clock frames s x y rest.
Proof. reflexivity. Qed.



End Chord.




(** Chords, run.  The cell (6, 0) of the opened easy board has count 2
    and no flag next to it: the chord returns false.  On the mined board
    with only (5, 4) revealed, of count 1, a flag on the mine (6, 5)
    makes the chord return true and open the rest of the board that the
    flood fill reaches; a flag on (6, 4) instead, which is no mine,
    makes it return true with the game over as it reaches the mine. *)
Example chord_runs :
  let flag s x y := default s (toggle_flag still_clock s x y) in
  let one := default easy_mined (reveal_cell still_clock frames_left easy_mined 5 4) in
  let summary r := (λ '(b, s'), (b : bool, length (unrevealed s'), game_over s')) <$> r in
  summary (chord_reveal still_clock frames_left easy_opened 6 0) = Some (false, 11%nat, false)
  ∧ length (unrevealed one) = 63%nat
  ∧ summary (chord_reveal still_clock frames_left (flag one 6 5) 5 4)
    = Some (true, 11%nat, false)
  ∧ summary (chord_reveal still_clock frames_left (flag one 6 4) 5 4)
    = Some (true, 12%nat, true).
Proof. vm_compute. done. Qed.

(** ** C2: mine placement *)

(** *** [random.sample] *)

Lemma sample_from_spec {A} (draws : list nat) (pool : list A) (k : nat) :
  NoDup pool → (k ≤ length pool)%nat →
  length (sample_from draws pool k) = k
  ∧ NoDup (sample_from draws pool k)
  ∧ (∀ a, a ∈ sample_from draws pool k → a ∈ pool).
Proof.
  revert draws pool. induction k as [|k IH]; intros draws pool Hnd Hk.
  - split_and!; [done|constructor|]. by intros a ?%elem_of_nil.
  - simpl. set (j := (hd 0%nat draws mod length pool)%nat).
    assert (Hj : (j < length pool)%nat) by (apply Nat.mod_upper_bound; lia).
    destruct (lookup_lt_is_Some_2 pool j Hj) as [a Ha]. rewrite Ha.
    pose proof (delete_Permutation pool j a Ha) as Hp.
    assert (Hnd' : NoDup (a :: delete j pool)) by (by rewrite <- Hp).
    apply NoDup_cons in Hnd' as [Hna Hnd'].
    destruct (IH (tl draws) (delete j pool) Hnd') as (Hl & Hn & Hin).
    { rewrite length_delete by (by eexists). lia. }
    split_and!.
    + simpl. by rewrite Hl.
    + apply NoDup_cons. split; [|done]. intros Hc. by apply Hna, Hin.
    + intros b [->|Hb]%elem_of_cons.
      * by eapply list_elem_of_lookup_2.
      * rewrite Hp. right. by apply Hin.
Qed.

(** *** The candidates *)

Lemma elem_of_positions n fx fy x y :
  (x, y) ∈ positions n fx fy
  ↔ (0 ≤ x < n ∧ 0 ≤ y < n) ∧ (1 < Z.abs (x - fx) ∨ 1 < Z.abs (y - fy)).
Proof.
  unfold positions, range. rewrite list_elem_of_bind. split.
  - intros (x' & Hin & Hx'). apply elem_of_seqZ in Hx'.
    apply list_elem_of_bind in Hin as (y' & Hin & Hy'). apply elem_of_seqZ in Hy'.
    destruct ((1 <? Z.abs (x' - fx)) || (1 <? Z.abs (y' - fy))) eqn:E.
    + apply list_elem_of_singleton in Hin. inversion Hin; subst.
      apply orb_true_iff in E. lia.
    + by apply elem_of_nil in Hin.
  - intros [[Hx Hy] E]. exists x. split; [|apply elem_of_seqZ; lia].
    apply list_elem_of_bind. exists y. split; [|apply elem_of_seqZ; lia].
    replace ((1 <? Z.abs (x - fx)) || (1 <? Z.abs (y - fy))) with true
      by (symmetry; apply orb_true_iff; lia).
    by apply list_elem_of_singleton.
Qed.

Lemma NoDup_positions n fx fy : NoDup (positions n fx fy).
Proof.
  unfold positions, range. apply NoDup_bind; [| |apply NoDup_seqZ].
  - intros x1 x2 [x y] _ _ H1 H2.
    apply list_elem_of_bind in H1 as (y1 & H1 & _), H2 as (y2 & H2 & _).
    destruct (_ || _) in H1; [|by apply elem_of_nil in H1].
    destruct (_ || _) in H2; [|by apply elem_of_nil in H2].
    apply list_elem_of_singleton in H1, H2. congruence.
  - intros x _. apply NoDup_bind; [| |apply NoDup_seqZ].
    + intros y1 y2 [x' y] _ _ H1 H2.
      destruct (_ || _) in H1; [|by apply elem_of_nil in H1].
      destruct (_ || _) in H2; [|by apply elem_of_nil in H2].
      apply list_elem_of_singleton in H1, H2. congruence.
    + intros y _. destruct (_ || _); [apply NoDup_singleton|apply NoDup_nil_2].
Qed.

(** On each of the three boards, whatever the first click, the
    candidates are at least as many as the mines (checked on every
    cell). *)
Lemma positions_capacity (d : Difficulty) (fx fy : Z) :
  0 ≤ fx < (Difficulty_value d).1 → 0 ≤ fy < (Difficulty_value d).1 →
  (Difficulty_value d).2 ≤ Z.of_nat (length (positions (Difficulty_value d).1 fx fy)).
Proof.
  intros Hx Hy.
  assert (H : forallb (λ fx, forallb (λ fy,
                (Difficulty_value d).2
                <=? Z.of_nat (length (positions (Difficulty_value d).1 fx fy)))
              (range (Difficulty_value d).1)) (range (Difficulty_value d).1) = true)
    by (destruct d; vm_compute; reflexivity).
  rewrite forallb_forall in H.
  assert (Hfx : List.In fx (range (Difficulty_value d).1))
    by (apply list_elem_of_In, elem_of_seqZ; lia).
  specialize (H fx Hfx). rewrite forallb_forall in H.
  assert (Hfy : List.In fy (range (Difficulty_value d).1))
    by (apply list_elem_of_In, elem_of_seqZ; lia).
  specialize (H fy Hfy). lia.
Qed.

(** *** Counting the mines around a cell *)

Lemma near_spec m c :
  near m c = true ↔ Z.abs (c.1 - m.1) ≤ 1 ∧ Z.abs (c.2 - m.2) ≤ 1.
Proof. unfold near. rewrite andb_true_iff. lia. Qed.

Lemma elem_of_offsets dx dy : (dx, dy) ∈ offsets ↔ Z.abs dx ≤ 1 ∧ Z.abs dy ≤ 1.
Proof.
  unfold offsets. split.
  - intros H. repeat (apply elem_of_cons in H as [H|H]; [inversion H; lia|]).
    by apply elem_of_nil in H.
  - intros [Hx Hy].
    assert (Hdx : dx = -1 ∨ dx = 0 ∨ dx = 1) by lia.
    assert (Hdy : dy = -1 ∨ dy = 0 ∨ dy = 1) by lia.
    destruct Hdx as [-> | [-> | ->]], Hdy as [-> | [-> | ->]];
      repeat first [apply list_elem_of_here|apply list_elem_of_further].
Qed.

Lemma NoDup_offsets : NoDup offsets.
Proof. apply (bool_decide_unpack _). by vm_compute. Qed.

Lemma elem_of_neighbours8 x y c :
  c ∈ neighbours8 x y ↔ near (x, y) c = true ∧ c ≠ (x, y).
Proof.
  unfold neighbours8. rewrite list_elem_of_fmap, near_spec. destruct c as [a b]. simpl. split.
  - intros ([dx dy] & E & H). inversion E; subst. clear E.
    repeat (apply elem_of_cons in H as [H|H];
            [inversion H; subst; split; [lia|intros [=]; lia]|]).
    by apply elem_of_nil in H.
  - intros [[Hx Hy] Hne]. exists (a - x, b - y). split; [f_equal; lia|].
    assert (Hdx : a - x = -1 ∨ a - x = 0 ∨ a - x = 1) by lia.
    assert (Hdy : b - y = -1 ∨ b - y = 0 ∨ b - y = 1) by lia.
    destruct Hdx as [E1 | [E1 | E1]], Hdy as [E2 | [E2 | E2]];
      try (exfalso; apply Hne; f_equal; lia); rewrite ?E1, ?E2;
      repeat first [apply list_elem_of_here|apply list_elem_of_further].
Qed.

Lemma NoDup_neighbours8 x y : NoDup (neighbours8 x y).
Proof.
  unfold neighbours8. apply NoDup_fmap_2_strong.
  - intros [dx1 dy1] [dx2 dy2] _ _ [=]. f_equal; lia.
  - apply (bool_decide_unpack _). by vm_compute.
Qed.

(** *** The loops of [place_mines] *)

Lemma shaped_count_up n x y g d : shaped n g → shaped n (count_up n x y g d).
Proof.
  intros Hg. destruct d as [dx dy]. unfold count_up.
  case_match; [by apply shaped_set_cell|done].
Qed.

Lemma count_up_cell n x y g dx dy a b :
  shaped n g → 0 ≤ a < n → 0 ≤ b < n →
  cell 0 (count_up n x y g (dx, dy)) a b
  = if decide ((a, b) = (x + dx, y + dy))
    then (if cell 0 g a b =? -1 then -1 else cell 0 g a b + 1)
    else cell 0 g a b.
Proof.
  intros Hg Ha Hb. unfold count_up.
  destruct ((0 <=? x + dx) && (x + dx <? n) && (0 <=? y + dy) && (y + dy <? n)) eqn:Ein.
  - apply andb_prop in Ein as [[[E1 E2]%andb_prop E3]%andb_prop E4].
    cbn [andb]. destruct (cell 0 g (x + dx) (y + dy) =? -1) eqn:Em; cbn [negb].
    + case_decide as E; [|done]. inversion E; subst. rewrite Em.
      by apply Z.eqb_eq in Em.
    + rewrite (cell_set_cell n) by (done || lia).
      case_decide as E; case_decide as E'; try congruence.
      inversion E'; subst. by rewrite Em.
  - cbn [andb]. case_decide as E; [|done]. inversion E; subst.
    exfalso. apply not_true_iff_false in Ein. apply Ein.
    rewrite !andb_true_iff. lia.
Qed.

Lemma count_up_all n x y offs g a b :
  NoDup offs → shaped n g → 0 ≤ a < n → 0 ≤ b < n →
  cell 0 (fold_left (count_up n x y) offs g) a b
  = if decide ((a - x, b - y) ∈ offs)
    then (if cell 0 g a b =? -1 then -1 else cell 0 g a b + 1)
    else cell 0 g a b.
Proof.
  intros Hnd. revert g. induction Hnd as [|[dx dy] offs Hn Hnd IH]; intros g Hg Ha Hb.
  - by rewrite decide_False by apply not_elem_of_nil.
  - cbn [fold_left]. rewrite IH by (done || by apply shaped_count_up).
    rewrite count_up_cell by done.
    destruct (decide ((a, b) = (x + dx, y + dy))) as [E|E].
    + inversion E; subst.
      replace (x + dx - x) with dx by lia. replace (y + dy - y) with dy by lia.
      rewrite decide_False by done. rewrite decide_True by (by left). done.
    + assert (Hne : (a - x, b - y) ≠ (dx, dy)).
      { intros [=]. apply E. f_equal; lia. }
      destruct (decide ((a - x, b - y) ∈ offs)) as [Hin|Hin].
      * by rewrite decide_True by (by right).
      * rewrite decide_False; [done|]. by intros [?|?]%elem_of_cons.
Qed.

Lemma shaped_place_mine n g m : shaped n g → shaped n (place_mine n g m).
Proof.
  intros Hg. destruct m as [x y]. unfold place_mine.
  assert (H : ∀ offs g', shaped n g' → shaped n (fold_left (count_up n x y) offs g')).
  { induction offs as [|d offs IH]; intros g' Hg'; [done|].
    cbn [fold_left]. by apply IH, shaped_count_up. }
  by apply H, shaped_set_cell.
Qed.

(** One mine more: the cell is a mine; a cell around it that is no mine
    counts one more; every other cell is as before. *)
Lemma place_mine_cell n g m a b :
  shaped n g → 0 ≤ m.1 < n → 0 ≤ m.2 < n → 0 ≤ a < n → 0 ≤ b < n →
  cell 0 (place_mine n g m) a b
  = if decide ((a, b) = m) then -1
    else if near m (a, b) && negb (cell 0 g a b =? -1) then cell 0 g a b + 1
    else cell 0 g a b.
Proof.
  destruct m as [x y]. cbn [fst snd]. intros Hg Hx Hy Ha Hb. unfold place_mine.
  rewrite (count_up_all n) by (done || apply NoDup_offsets || by apply shaped_set_cell).
  rewrite (cell_set_cell n) by (done || lia).
  destruct (decide ((x, y) = (a, b))) as [E|E].
  - inversion E; subst. rewrite (decide_True (P := (a, b) = (a, b))) by done.
    by destruct (decide _).
  - rewrite (decide_False (P := (a, b) = (x, y))) by congruence.
    destruct (near (x, y) (a, b)) eqn:En.
    + rewrite decide_True by (apply elem_of_offsets; apply near_spec in En; simpl in En; lia).
      destruct (Z.eqb_spec (cell 0 g a b) (-1)) as [E'|E']; simpl; [by rewrite E'|done].
    + rewrite decide_False; [done|]. intros Hin%elem_of_offsets.
      apply not_true_iff_false in En. apply En, near_spec. simpl. lia.
Qed.

Lemma placed_empty n : placed n (replicate (Z.to_nat n) (replicate (Z.to_nat n) 0)) [].
Proof.
  split; [apply shaped_replicate|]. intros a b Ha Hb.
  rewrite cell_replicate by done. by rewrite decide_False by apply not_elem_of_nil.
Qed.

Lemma placed_place_mine n g ms m :
  placed n g ms → m ∉ ms → 0 ≤ m.1 < n → 0 ≤ m.2 < n →
  placed n (place_mine n g m) (m :: ms).
Proof.
  intros [Hg Hc] Hm Hx Hy. split; [by apply shaped_place_mine|].
  intros a b Ha Hb. rewrite place_mine_cell by done. rewrite Hc by done.
  unfold count_near. rewrite filter_cons.
  destruct (decide ((a, b) = m)) as [->|E].
  - by rewrite decide_True by (by left).
  - destruct (decide ((a, b) ∈ ms)) as [Hin|Hin].
    + rewrite decide_True by (by right). simpl. by rewrite andb_false_r.
    + rewrite decide_False by (by intros [?|?]%elem_of_cons).
      set (k := length (filter (λ m0, near m0 (a, b) = true) ms)).
      destruct (Z.eqb_spec (Z.of_nat k) (-1)); [lia|]. rewrite andb_true_r.
      destruct (near m (a, b)) eqn:En.
      * rewrite decide_True by done. simpl length. lia.
      * by rewrite decide_False by done.
Qed.

Lemma placed_fold n ms g old :
  placed n g old → NoDup ms →
  (∀ m, m ∈ ms → (m ∉ old) ∧ 0 ≤ m.1 < n ∧ 0 ≤ m.2 < n) →
  placed n (fold_left (place_mine n) ms g) (reverse ms ++ old).
Proof.
  intros Hp Hnd. revert g old Hp.
  induction Hnd as [|m ms Hm Hnd IH]; intros g old Hp Hin; [done|].
  cbn [fold_left]. rewrite reverse_cons, <- app_assoc. simpl app.
  apply IH.
  - destruct (Hin m) as (? & ? & ?); [by left|]. by apply placed_place_mine.
  - intros m' Hm'. destruct (Hin m') as (Ho & ? & ?); [by right|].
    split; [|done]. intros [E|?]%elem_of_cons; [|done]. by subst.
Qed.

Lemma count_near_nonneg c ms : 0 ≤ count_near c ms.
Proof. unfold count_near. lia. Qed.

Lemma placed_mine n g ms a b :
  placed n g ms → 0 ≤ a < n → 0 ≤ b < n → cell 0 g a b = -1 ↔ (a, b) ∈ ms.
Proof.
  intros [_ Hc] Ha Hb. rewrite Hc by done. case_decide; [done|].
  pose proof (count_near_nonneg (a, b) ms). split; [lia|done].
Qed.

Lemma near_sym m c : near m c = near c m.
Proof. unfold near. f_equal; lia. Qed.

(** On a placed board, a cell that is no mine counts the mines among
    its eight neighbours in the grid. *)
Lemma placed_count n g ms a b :
  placed n g ms → NoDup ms → (∀ m, m ∈ ms → 0 ≤ m.1 < n ∧ 0 ≤ m.2 < n) →
  0 ≤ a < n → 0 ≤ b < n → cell 0 g a b ≠ -1 →
  cell 0 g a b
  = Z.of_nat (length (filter (λ c, (0 ≤ c.1 < n ∧ 0 ≤ c.2 < n) ∧ cell 0 g c.1 c.2 = -1)
                        (neighbours8 a b))).
Proof.
  intros Hp Hnd Hin Ha Hb Hne.
  assert (Hnot : (a, b) ∉ ms) by (by rewrite <- (placed_mine n g ms a b Hp Ha Hb)).
  destruct Hp as [Hg Hc]. rewrite (Hc a b Ha Hb), decide_False by done.
  unfold count_near. apply (f_equal Z.of_nat), Permutation_length, NoDup_Permutation.
  - by apply NoDup_filter.
  - apply NoDup_filter, NoDup_neighbours8.
  - intros [x y]. rewrite !list_elem_of_filter, elem_of_neighbours8. simpl. split.
    + intros [Hn Hm]. destruct (Hin _ Hm) as [Hx Hy]. simpl in Hx, Hy.
      split; [split; [done|]|split].
      * rewrite (Hc x y Hx Hy). by rewrite decide_True.
      * by rewrite near_sym.
      * intros [= -> ->]. done.
    + intros [[[Hx Hy] Hm] [Hn _]]. split; [by rewrite near_sym|].
      rewrite (Hc x y Hx Hy) in Hm. case_decide; [done|].
      pose proof (count_near_nonneg (x, y) ms). lia.
Qed.

(** C2.  A first click on a cell of a board that has the size and the
    mine count of its difficulty and holds no mine yet: [place_mines]
    returns, whatever the random draws, and changes the grid only.
    Afterwards exactly [MINES] cells of the grid are mines, every mine
    is at Chebyshev distance more than 1 from the clicked cell, and
    every cell of the grid that is not a mine holds the number of mines
    among its eight neighbours in the grid. *)
Theorem place_mines_safe_first_click (draws : list nat) (s : Minesweeper)
    (first_x first_y : Z) :
  (GRID_SIZE s, MINES s) = Difficulty_value (difficulty s) →
  grid s = replicate (Z.to_nat (GRID_SIZE s)) (replicate (Z.to_nat (GRID_SIZE s)) 0) →
  in_grid s first_x first_y = true →
  ∃ s',
    place_mines draws s first_x first_y = Some s'
    ∧ s' = set_grid (grid s') s
    ∧ Z.of_nat (length (mines s')) = MINES s
    ∧ (∀ x y, (x, y) ∈ mines s' →
         1 < Z.max (Z.abs (x - first_x)) (Z.abs (y - first_y)))
    ∧ (∀ x y, in_grid s x y = true → cell 0 (grid s') x y ≠ -1 →
         cell 0 (grid s') x y = Z.of_nat (length (mine_neighbours s' x y))).
Proof.
  intros Hcfg Hblank Hclick. apply in_grid_spec in Hclick as [Hfx Hfy].
  assert (Hn : GRID_SIZE s = (Difficulty_value (difficulty s)).1) by (by rewrite <- Hcfg).
  assert (Hm : MINES s = (Difficulty_value (difficulty s)).2) by (by rewrite <- Hcfg).
  assert (Hcap : 0 ≤ MINES s
                 ≤ Z.of_nat (length (positions (GRID_SIZE s) first_x first_y))).
  { split; [rewrite Hm; by destruct (difficulty s)|].
    rewrite Hm, Hn. apply positions_capacity; by rewrite <- Hn. }
  unfold place_mines, random_sample. rewrite decide_True by done. simpl.
  set (ms := sample_from draws (positions (GRID_SIZE s) first_x first_y)
               (Z.to_nat (MINES s))).
  destruct (sample_from_spec draws (positions (GRID_SIZE s) first_x first_y)
              (Z.to_nat (MINES s))) as (Hlen & Hnd & Hsub);
    [apply NoDup_positions|lia|]. fold ms in Hlen, Hnd, Hsub.
  assert (Hrange : ∀ m, m ∈ ms → 0 ≤ m.1 < GRID_SIZE s ∧ 0 ≤ m.2 < GRID_SIZE s).
  { intros [x y] Hin. apply Hsub, elem_of_positions in Hin. simpl. tauto. }
  set (ml := reverse ms ++ []).
  assert (Hml : ∀ m, m ∈ ml ↔ m ∈ ms).
  { intros m. unfold ml. by rewrite app_nil_r, elem_of_reverse. }
  assert (Hndl : NoDup ml) by (unfold ml; by rewrite app_nil_r, reverse_Permutation).
  assert (Hp : placed (GRID_SIZE s)
                 (fold_left (place_mine (GRID_SIZE s)) ms (grid s)) ml).
  { rewrite Hblank. apply placed_fold; [apply placed_empty|done|].
    intros m Hin. split; [apply not_elem_of_nil|by apply Hrange]. }
  eexists. split; [done|]. split; [done|]. simpl.
  set (g' := fold_left (place_mine (GRID_SIZE s)) ms (grid s)) in *.
  split_and!.
  - rewrite <- (Z2Nat.id (MINES s)) by lia. f_equal. rewrite <- Hlen.
    apply Permutation_length, NoDup_Permutation; [apply NoDup_cells_where|done|].
    intros [x y]. unfold mines. rewrite elem_of_cells_where. simpl. split.
    + intros [[Hx Hy] E%Z.eqb_eq]. by apply Hml, (placed_mine _ _ _ _ _ Hp).
    + intros Hin. destruct (Hrange _ Hin) as [Hx Hy]. split; [done|].
      apply Z.eqb_eq. by apply (placed_mine _ _ _ _ _ Hp), Hml.
  - intros x y [[Hx Hy] E%Z.eqb_eq]%elem_of_cells_where. simpl in *.
    apply (placed_mine _ _ _ _ _ Hp), Hml, Hsub, elem_of_positions in E; [|done..].
    lia.
  - intros x y [Hx Hy]%in_grid_spec Hne. unfold mine_neighbours. simpl.
    rewrite (placed_count (GRID_SIZE s) g' ml x y Hp Hndl) at 1; [|by intros m ?%Hml%Hrange|done..].
    apply (f_equal (λ l, Z.of_nat (length l))), list_filter_iff.
    intros [a b]. unfold in_grid. simpl.
    rewrite !andb_true_iff. lia.
Qed.

Lemma place_mines_safe_first_click_witness :
  ∃ s',
    place_mines (replicate 10 49%nat) easy_game 0 0 = Some s'
    ∧ s' = set_grid (grid s') easy_game
    ∧ Z.of_nat (length (mines s')) = MINES easy_game
    ∧ (∀ x y, (x, y) ∈ mines s' → 1 < Z.max (Z.abs (x - 0)) (Z.abs (y - 0)))
    ∧ (∀ x y, in_grid easy_game x y = true → cell 0 (grid s') x y ≠ -1 →
         cell 0 (grid s') x y = Z.of_nat (length (mine_neighbours s' x y))).
Proof.
  apply (place_mines_safe_first_click (replicate 10 49%nat) easy_game 0 0);
    reflexivity.
Defined.

(** ** C1: a click on a mine *)


Section Activation.
Variable clock : Clock.



End Activation.


(** *** Games played from the easy board *)

Example corner_game_run :
  run still_clock easy_game [[MOUSEBUTTONDOWN (at_cell 0 0) 1 no_keys corner_draws]]
  = Some corner_game
  ∧ grid corner_game =
    [[0; 2; -1; 2; 0; 0; 2; -1]; [2; 4; -1; 2; 0; 0; 3; -1];
     [-1; -1; 2; 1; 0; 0; 3; -1]; [2; 2; 1; 0; 0; 0; 3; -1];
     [0; 0; 0; 0; 0; 0; 3; -1]; [0; 0; 0; 0; 0; 0; 2; -1];
     [0; 0; 0; 0; 0; 0; 1; 1]; [0; 0; 0; 0; 0; 0; 0; 0]]
  ∧ unrevealed corner_game
    = cells_where 8 (λ x y, negb ((x <? 2) && (y <? 2))).
Proof. vm_compute. done. Qed.




(** ** C3: the win flag and the number of unrevealed cells *)

(** C3, on the code.  After those turns as many cells are unrevealed as
    there are mines, and the game is neither won nor lost: a click that
    carries the area reveal and ends in the right-click branch (or on a
    protected mine) returns without [check_win].  The next left click on
    a revealed cell finds the win. *)
Theorem win_missed_after_area_reveal :
  (λ s, (Z.of_nat (length (unrevealed s)), MINES s, win s, game_over s))
    <$> run still_clock easy_game area_turns
  = Some (10, 10, false, false)
  ∧ (λ s, (Z.of_nat (length (unrevealed s)), MINES s, win s, game_over s))
      <$> run still_clock easy_game
            (area_turns ++ [[MOUSEBUTTONDOWN (at_cell 0 0) 1 no_keys []]])
    = Some (10, 10, true, false).
Proof. vm_compute. done. Qed.

(** [check_win] itself sets the flag exactly when the counts agree, and
    looks at no flag. *)
Lemma check_win_spec s :
  win (check_win s) = win s || (Z.of_nat (length (unrevealed s)) =? MINES s).
Proof.
  unfold check_win. destruct (_ =? _); [|by rewrite orb_false_r].
  rewrite orb_true_r. by destruct (0 <? _).
Qed.

(** ** C4: the mine counter under flags *)

(** A right click on an unrevealed cell of the grid: a flag that was not
    there is put and [mines_left] goes up by one; a flag that was there
    is taken and [mines_left] goes down by one. *)
Lemma toggle_flag_mines_left clock s x y s' :
  cell false (revealed s) x y = false → toggle_flag clock s x y = Some s' →
  mines_left s' = mines_left s + (if cell false (flagged s) x y then -1 else 1).
Proof.
  intros Hr. unfold toggle_flag. rewrite Hr.
  destruct (cell false (flagged s) x y); simpl;
    destruct (negb (cell 0 (grid s) x y =? -1)); simpl;
    try destruct (list_remove _ _); simpl; intros [= <-]; done.
Qed.

(** C4, on the code.  On the fresh medium board, of 35 mines, a right
    click on the cell (0, 0) puts a flag there and leaves [mines_left]
    at 36; a second one takes the flag and leaves it at 35. *)
Theorem mines_left_counts_flags_up :
  (λ s, (mines_left s, MINES s, cell false (flagged s) 0 0))
    <$> handle_click still_clock [] frames_left no_keys fresh_game (at_cell 0 0) true
  = Some (36, 35, true)
  ∧ (λ s, (mines_left s, MINES s, cell false (flagged s) 0 0))
      <$> (handle_click still_clock [] frames_left no_keys fresh_game (at_cell 0 0) true
           ≫= λ s, handle_click still_clock [] frames_left no_keys s (at_cell 0 0) true)
    = Some (35, 35, false).
Proof. vm_compute. done. Qed.

(** ** C8: the time freeze *)

(** C8, on the code.  The freeze is activated 5.5 s into the game with
    the timer at 4.  The loop of [run] never calls [update]: at the end
    of the very turn of the activation [draw] has set the timer to 5,
    and a turn later, 1.5 s after the activation, to 6, where [update]
    would have put 4 back.  Eight turns later, 9 s after the activation,
    the power-up is still active, and [update] itself would leave it
    so. *)
Theorem time_freeze_not_polled :
  freeze_report <$> run ticking_clock easy_game freeze_turns
  = Some (PowerUp.mk true (Some 1700000005.5%float) (Some 5%float) 4,
          5, 1700000006.5%float, 4, true)
  ∧ freeze_report <$> run ticking_clock easy_game (freeze_turns ++ [[]])
    = Some (PowerUp.mk true (Some 1700000005.5%float) (Some 5%float) 4,
            6, 1700000007.5%float, 4, true)
  ∧ freeze_report <$> run ticking_clock easy_game (freeze_turns ++ replicate 8 [])
    = Some (PowerUp.mk true (Some 1700000005.5%float) (Some 5%float) 4,
            13, 1700000014.5%float, 13, true).
Proof. vm_compute. done. Qed.

(** What [update] would do if it were polled: while the freeze is
    active and not expired the timer is the frozen one; the power-up
    stays active either way. *)
Lemma TimeFreeze_update_spec clock s :
  PowerUp.active (power_ups s freeze) = true →
  elapsed_time (TimeFreeze_update clock s)
  = (if PowerUp.is_expired (clock (time_reads s)) (power_ups s freeze)
     then elapsed_time s else PowerUp.frozen_time (power_ups s freeze))
  ∧ power_ups (TimeFreeze_update clock s) = power_ups s.
Proof.
  intros Ha. unfold TimeFreeze_update. rewrite Ha. simpl.
  by destruct (PowerUp.is_expired _ _).
Qed.

(** A turn of the loop changes no power-up unless a click does. *)
Lemma run_iteration_idle_power_ups clock s s' :
  run_iteration clock s [] = Some s' → power_ups s' = power_ups s.
Proof.
  unfold run_iteration, draw. simpl.
  assert (Hu : ∀ k s0, power_ups (unlock_achievement clock k s0) = power_ups s0).
  { intros k s0. unfold unlock_achievement. by case_match. }
  assert (Hc : ∀ s0, power_ups (check_achievements clock s0) = power_ups s0).
  { intros s0. unfold check_achievements.
    repeat (case_match; rewrite ?Hu); done. }
  set (s1 := check_achievements clock _).
  assert (H1 : power_ups s1 = power_ups s) by (unfold s1; by rewrite Hc).
  destruct (start_time s1) as [t0|]; simpl.
  - destruct (PrimFloat.eqb t0 0); simpl; [by intros [= <-]|].
    destruct (float_to_int _); simpl; [|done]. by intros [= <-].
  - by intros [= <-].
Qed.

(** ** C9: what a reset does *)

(** A board whose cells all hold the same value has no other. *)
Lemma no_mines_on_blank s :
  grid s = replicate (Z.to_nat (GRID_SIZE s)) (replicate (Z.to_nat (GRID_SIZE s)) 0) →
  ∀ c, c ∉ mines s.
Proof.
  intros Hg [x y] Hc. unfold mines in Hc.
  apply elem_of_cells_where in Hc as [[Hx Hy] E].
  rewrite Hg, cell_replicate in E by done. discriminate E.
Qed.

Lemma reset_game_cells s x y :
  in_grid s x y = true →
  cell 0 (grid (reset_game s)) x y = 0
  ∧ cell false (revealed (reset_game s)) x y = false
  ∧ cell false (flagged (reset_game s)) x y = false.
Proof.
  intros [Hx Hy]%in_grid_spec.
  change (grid (reset_game s))
    with (replicate (Z.to_nat (GRID_SIZE s)) (replicate (Z.to_nat (GRID_SIZE s)) 0)).
  change (revealed (reset_game s))
    with (replicate (Z.to_nat (GRID_SIZE s)) (replicate (Z.to_nat (GRID_SIZE s)) false)).
  change (flagged (reset_game s))
    with (replicate (Z.to_nat (GRID_SIZE s)) (replicate (Z.to_nat (GRID_SIZE s)) false)).
  by rewrite !cell_replicate.
Qed.

(** C9, as the code has it.  [reset_game] leaves a board of the
    recorded size on which every cell is unrevealed, unflagged and
    without a mine; the game is neither lost nor won and waits for its
    first click; the combo counters, the timer and its start are
    cleared, and [mines_left] is the mine count again.  The power-ups
    (their [active] flags included), their charges, the achievements,
    the difficulty and the size are as before. *)
Theorem reset_game_fresh (s : Minesweeper) :
  board_ok (reset_game s)
  ∧ (∀ x y, in_grid (reset_game s) x y = true →
       cell 0 (grid (reset_game s)) x y = 0
       ∧ cell false (revealed (reset_game s)) x y = false
       ∧ cell false (flagged (reset_game s)) x y = false)
  ∧ (∀ c, c ∉ mines (reset_game s))
  ∧ game_over (reset_game s) = false ∧ win (reset_game s) = false
  ∧ first_click (reset_game s) = true
  ∧ combo (reset_game s) = 0 ∧ max_combo (reset_game s) = 0
  ∧ start_time (reset_game s) = None ∧ elapsed_time (reset_game s) = 0
  ∧ mines_left (reset_game s) = MINES s
  ∧ power_ups (reset_game s) = power_ups s
  ∧ power_up_charges (reset_game s) = power_up_charges s
  ∧ achievements (reset_game s) = achievements s
  ∧ difficulty (reset_game s) = difficulty s
  ∧ GRID_SIZE (reset_game s) = GRID_SIZE s ∧ MINES (reset_game s) = MINES s.
Proof.
  split; [apply board_ok_reset_game|].
  split; [intros x y Hin; by apply reset_game_cells|].
  split; [by apply no_mines_on_blank|].
  repeat split.
Qed.

(** The claim as the specification states it fails on a game in which
    the safety net is active and a flag is misplaced: pressing [r]
    leaves the power-up active and the misplaced flag on record. *)
Lemma reset_keeps_active_and_misplaced :
  handle_event still_clock netted_game (KEYDOWN K_r) = Some (reset_game netted_game)
  ∧ PowerUp.active (power_ups netted_game safety) = true
  ∧ PowerUp.active (power_ups (reset_game netted_game) safety) = true
  ∧ misplaced_flags (reset_game netted_game) = [(2, 2)].
Proof. vm_compute. done. Qed.

(** ** The win flag over a whole game *)

Lemma win_sound_not_won s : win s = false → win_sound s.
Proof. intros H. unfold win_sound. by rewrite H. Qed.

Lemma win_sound_same s s' :
  win s' = win s → revealed s' = revealed s → GRID_SIZE s' = GRID_SIZE s →
  MINES s' = MINES s → win_sound s → win_sound s'.
Proof.
  unfold win_sound, unrevealed. intros -> -> -> ->. done.
Qed.

Lemma win_sound_check_win s : win s = false → win_sound (check_win s).
Proof.
  intros Hw. unfold win_sound, check_win.
  destruct (Z.eqb_spec (Z.of_nat (length (unrevealed s))) (MINES s)) as [E|E].
  - by destruct (0 <? elapsed_time (set_win true s)).
  - by rewrite Hw.
Qed.

Section WinFlag.
Variable clock : Clock.

Lemma reveal_cell_effect frames s x y s' :
  reveal_cell clock frames s x y = Some s' → s' = reveal_effect s s'.
Proof.
  intros H. destruct (reveal_cell_all _ _ _ _ _ _ H) as [new Ha].
  by eapply reveal_all_effect.
Qed.

Lemma reveal_cell_win frames s x y s' :
  reveal_cell clock frames s x y = Some s' → win s' = win s.
Proof. intros ->%reveal_cell_effect. by destruct s. Qed.

Lemma reveal_area_loop_effect frames x y cells s s' :
  for_each cells
    (λ s '(dx, dy),
       let new_x := x + dx in
       let new_y := y + dy in
       if in_grid s new_x new_y && negb (cell false (revealed s) new_x new_y)
          && negb (cell 0 (grid s) new_x new_y =? -1)
       then reveal_cell clock frames s new_x new_y
       else Some s) s = Some s' →
  s' = reveal_effect s s'.
Proof.
  revert s. induction cells as [|[dx dy] cells IH]; intros s H.
  - inversion H. apply reveal_effect_refl.
  - rewrite for_each_cons in H. cbv zeta in H.
    destruct (_ && _) in H.
    + destruct (reveal_cell clock frames s (x + dx) (y + dy)) as [s1|] eqn:E1; [|done].
      cbn [mbind option_bind] in H.
      eapply reveal_effect_trans; [by eapply reveal_cell_effect|by apply IH].
    + cbn [mbind option_bind] in H. by apply IH.
Qed.

(** An activation changes no charge; [handle_click] takes the charge
    after it. *)
Lemma RevealArea_activate_charges frames s x y s' :
  RevealArea_activate clock frames s x y = Some s' →
  win s' = win s ∧ power_up_charges s' = power_up_charges s.
Proof.
  unfold RevealArea_activate. intros ->%reveal_area_loop_effect. done.
Qed.

Lemma activate_power_up_win frames keys s x y s' :
  activate_power_up clock frames keys s x y = Some s' → win s' = win s.
Proof.
  unfold activate_power_up.
  destruct (K_1 keys && (0 <? power_up_charges s reveal)).
  - destruct (RevealArea_activate clock frames s x y) as [s1|] eqn:E1; [|done].
    cbn [mbind option_bind]. intros [= <-].
    by apply RevealArea_activate_charges in E1 as [? _].
  - destruct (K_2 keys && (0 <? power_up_charges s freeze)); [by intros [= <-]|].
    destruct (K_3 keys && (0 <? power_up_charges s safety)); by intros [= <-].
Qed.

Lemma toggle_flag_win s x y s' : toggle_flag clock s x y = Some s' → win s' = win s.
Proof.
  unfold toggle_flag. destruct (cell false (revealed s) x y); [by intros [= <-]|].
  destruct (cell false (flagged s) x y); simpl;
    destruct (negb (cell 0 (grid s) x y =? -1)); simpl;
    try destruct (list_remove _ _); simpl; intros [= <-]; done.
Qed.

Lemma chord_loop_win frames x y offs s s' :
  chord_loop clock frames s x y offs = Some s' → win s' = win s.
Proof.
  revert s. induction offs as [|[dx dy] offs IH]; intros s H; [by inversion H|].
  rewrite chord_loop_cons in H. destruct (_ && _) in H; [|by apply IH].
  destruct (_ =? _) in H; [by inversion H|].
  destruct (reveal_cell clock frames s (x + dx) (y + dy)) as [s1|] eqn:E1; [|done].
  cbn [mbind option_bind] in H. rewrite (IH _ H). simpl. by eapply reveal_cell_win.
Qed.

Lemma chord_reveal_win frames s x y b s' :
  chord_reveal clock frames s x y = Some (b, s') → win s' = win s.
Proof.
  unfold chord_reveal. destruct (_ || _); [by intros [= _ <-]|].
  destruct (_ =? _); [|by intros [= _ <-]].
  destruct (chord_loop clock frames s x y offsets) as [s1|] eqn:E1; [|done].
  cbn [mbind option_bind]. intros [= _ <-]. by eapply chord_loop_win.
Qed.

Lemma place_mines_win draws s x y s' : place_mines draws s x y = Some s' → win s' = win s.
Proof.
  unfold place_mines. destruct (random_sample _ _ _); [|done].
  cbn [mbind option_bind]. by intros [= <-].
Qed.

(** A click keeps the flag right: it sets it through [check_win]
    only. *)
Lemma handle_click_win_sound draws frames keys s pos right_click s' :
  win_sound s → handle_click clock draws frames keys s pos right_click = Some s' →
  win_sound s'.
Proof.
  intros HI H. unfold handle_click in H. cbv zeta in H.
  destruct (game_over s || win s) eqn:Eg; [by inversion H; subst|].
  apply orb_false_iff in Eg as [_ Hw].
  destruct (negb (in_grid s _ _)) in H.
  - repeat (destruct (_ && _) in H); inversion H; subst; by apply win_sound_not_won.
  - destruct (activate_power_up clock frames keys s _ _) as [s1|] eqn:Ea; [|done].
    cbn [mbind option_bind] in H. apply activate_power_up_win in Ea as Hw1.
    rewrite Hw in Hw1. destruct right_click.
    { apply win_sound_not_won. by rewrite (toggle_flag_win _ _ _ _ H). }
    destruct (cell false (flagged s1) _ _) in H.
    { inversion H; subst. by apply win_sound_not_won. }
    match type of H with (?r ≫= _) = _ => destruct r as [[b s2]|] eqn:Er end; [|done].
    cbn [mbind option_bind] in H.
    assert (Hw2 : win s2 = false).
    { destruct (_ && _) in Er.
      - by rewrite (chord_reveal_win _ _ _ _ _ _ Er).
      - by inversion Er; subst. }
    destruct b; [inversion H; subst; by apply win_sound_check_win|].
    match type of H with (?r ≫= _) = _ => destruct r as [s3|] eqn:E3 end; [|done].
    cbn [mbind option_bind] in H.
    assert (Hw3 : win s3 = false).
    { destruct (first_click s2) in E3; [|by inversion E3; subst].
      destruct (place_mines draws s2 _ _) as [s4|] eqn:E4; [|done].
      cbn [mbind option_bind] in E3. inversion E3; subst. simpl.
      by rewrite (place_mines_win _ _ _ _ _ E4). }
    destruct (_ =? _) in H.
    { destruct (any_power_up_active s3); inversion H; subst; by apply win_sound_not_won. }
    destruct (reveal_cell clock frames s3 _ _) as [s4|] eqn:E4; [|done].
    cbn [mbind option_bind] in H. inversion H; subst.
    apply win_sound_check_win. by rewrite (reveal_cell_win _ _ _ _ _ E4).
Qed.

Lemma handle_event_win_sound s e s' :
  win_sound s → handle_event clock s e = Some s' → win_sound s'.
Proof.
  intros HI. destruct e as [|pos button keys draws|[| |]]; simpl.
  - by intros [= <-].
  - destruct (_ || _); [|by intros [= <-]]. by apply handle_click_win_sound.
  - intros [= <-]. by apply win_sound_not_won.
  - intros [= <-]. revert HI. by apply win_sound_same.
  - by intros [= <-].
Qed.

Lemma unlock_achievement_win_sound k s :
  win_sound s → win_sound (unlock_achievement clock k s).
Proof.
  unfold unlock_achievement. destruct (Achievement.unlocked _); [done|].
  by apply win_sound_same.
Qed.

Lemma check_achievements_win_sound s : win_sound s → win_sound (check_achievements clock s).
Proof.
  intros HI. unfold check_achievements.
  repeat first [apply unlock_achievement_win_sound | case_match]; done.
Qed.

Lemma draw_win_sound s s' : win_sound s → draw clock s = Some s' → win_sound s'.
Proof.
  intros HI. unfold draw. destruct (start_time s) as [t0|].
  - destruct (PrimFloat.eqb t0 0).
    + cbn [mbind option_bind]. intros [= <-]. revert HI. by apply win_sound_same.
    + simpl. destruct (float_to_int _); [|done].
      simpl. intros [= <-]. revert HI. by apply win_sound_same.
  - cbn [mbind option_bind]. intros [= <-]. revert HI. by apply win_sound_same.
Qed.

Lemma run_iteration_win_sound s events s' :
  win_sound s → run_iteration clock s events = Some s' → win_sound s'.
Proof.
  intros HI. unfold run_iteration. simpl.
  set (s0 := set_time_reads _ s).
  assert (H0 : win_sound s0) by (revert HI; by apply win_sound_same).
  clearbody s0. revert s0 H0.
  induction events as [|e events IH]; intros s0 H0.
  - rewrite for_each_nil. cbn [mbind option_bind].
    by apply draw_win_sound, check_achievements_win_sound.
  - rewrite for_each_cons.
    destruct (handle_event clock s0 e) as [s1|] eqn:E1; [|done].
    cbn [mbind option_bind]. apply IH. by eapply handle_event_win_sound.
Qed.

Lemma fold_left_win {A} (f : Minesweeper → A → Minesweeper) l a :
  (∀ s x, win (f s x) = win s) → win (fold_left f l a) = win a.
Proof.
  intros Hf. revert a. induction l as [|x l IH]; intros a; [done|].
  cbn [fold_left]. by rewrite IH, Hf.
Qed.

Lemma load_game_win save s : win (load_game clock save s) = win s.
Proof.
  unfold load_game. destruct save as [d|]; [|done].
  cbn [win set_themes_tried set_power_up_charges].
  rewrite fold_left_win.
  - rewrite fold_left_win; [done|]. by intros s0 [diff score].
  - intros s0 [name u]. destruct u; [|done].
    unfold unlock_achievement. by destruct (Achievement.unlocked _).
Qed.

Lemma Minesweeper_init_not_won save : win (Minesweeper_init clock save) = false.
Proof. unfold Minesweeper_init. by rewrite load_game_win. Qed.
End WinFlag.

(** In every game [run] can reach, the win flag is set only when the
    number of unrevealed cells equals the mine count. *)
Theorem reachable_win_sound (clock : Clock) (s : Minesweeper) :
  reachable clock s → win s = true → Z.of_nat (length (unrevealed s)) = MINES s.
Proof.
  induction 1 as [save|s events s' Hr IH Hs].
  - by rewrite Minesweeper_init_not_won.
  - by apply (run_iteration_win_sound clock s events s' IH Hs).
Qed.

Lemma reachable_run clock s turns s' :
  reachable clock s → run clock s turns = Some s' → reachable clock s'.
Proof.
  unfold run. revert s. induction turns as [|events turns IH]; intros s Hr.
  - by intros [= <-].
  - rewrite for_each_cons.
    destruct (run_iteration clock s events) as [s1|] eqn:E1; [|done].
    cbn [mbind option_bind]. apply IH. by eapply reachable_turn.
Qed.

Lemma reachable_win_sound_witness :
  reachable still_clock won_game ∧ win won_game = true
  ∧ Z.of_nat (length (unrevealed won_game)) = MINES won_game.
Proof.
  assert (Hr : reachable still_clock won_game).
  { apply (reachable_run still_clock fresh_game
             ([[MOUSEBUTTONDOWN (20, 20) 1 no_keys []]] ++ area_turns
              ++ [[MOUSEBUTTONDOWN (at_cell 0 0) 1 no_keys []]])).
    - apply (reachable_init still_clock None).
    - vm_compute. reflexivity. }
  split; [exact Hr|]. split; [reflexivity|].
  apply (reachable_win_sound still_clock won_game Hr). reflexivity.
Defined.

(** ** Power-up charges *)

(** A click takes at most one charge, and only one that is there: held
    keys leave every charge at or below its value, none goes below 0
    that was not, and with no charge left nothing is activated and the
    game is as it was. *)
Theorem activate_power_up_charges (clock : Clock) (frames : nat) (keys : Keys)
    (s : Minesweeper) (x y : Z) (s' : Minesweeper) :
  activate_power_up clock frames keys s x y = Some s' →
  (∀ k, power_up_charges s k - 1 ≤ power_up_charges s' k ≤ power_up_charges s k
        ∧ (0 ≤ power_up_charges s k → 0 ≤ power_up_charges s' k))
  ∧ ((∀ k, power_up_charges s k ≤ 0) → s' = s).
Proof.
  unfold activate_power_up. intros H. split.
  - intros k.
    destruct (K_1 keys && (0 <? power_up_charges s reveal)) eqn:E1.
    { apply andb_prop in E1 as [_ E1%Z.ltb_lt].
      destruct (RevealArea_activate clock frames s x y) as [s1|] eqn:Ea; [|done].
      apply RevealArea_activate_charges in Ea as [_ Ec].
      cbn [mbind option_bind] in H. inversion H; subst. simpl. rewrite Ec.
      destruct (decide (reveal = k)) as [<-|Hne].
      - rewrite fn_lookup_insert. lia.
      - rewrite fn_lookup_insert_ne by done. lia. }
    destruct (K_2 keys && (0 <? power_up_charges s freeze)) eqn:E2.
    { apply andb_prop in E2 as [_ E2%Z.ltb_lt]. inversion H; subst. simpl.
      destruct (decide (freeze = k)) as [<-|Hne].
      - rewrite fn_lookup_insert. lia.
      - rewrite fn_lookup_insert_ne by done. lia. }
    destruct (K_3 keys && (0 <? power_up_charges s safety)) eqn:E3.
    { apply andb_prop in E3 as [_ E3%Z.ltb_lt]. inversion H; subst. simpl.
      destruct (decide (safety = k)) as [<-|Hne].
      - rewrite fn_lookup_insert. lia.
      - rewrite fn_lookup_insert_ne by done. lia. }
    inversion H; subst. lia.
  - intros Hz.
    assert (Hk : ∀ k, (0 <? power_up_charges s k) = false).
    { intros k. specialize (Hz k). lia. }
    rewrite !Hk, !andb_false_r in H. by inversion H.
Qed.

Lemma activate_power_up_charges_witness :
  (∀ k, power_up_charges corner_game k - 1 ≤ power_up_charges charged_game k
        ≤ power_up_charges corner_game k
        ∧ (0 ≤ power_up_charges corner_game k → 0 ≤ power_up_charges charged_game k))
  ∧ ((∀ k, power_up_charges corner_game k ≤ 0) → charged_game = corner_game).
Proof.
  apply (activate_power_up_charges still_clock frames_left (mkKeys false true false)
           corner_game 0 0 charged_game).
  reflexivity.
Defined.
